(** * Scatter / gather engine of the numpy backend

    A shallow embedding of [ivy/functional/backends/numpy/general.py]:
    [inplace_update], [cumprod], [scatter_flat], [scatter_nd], [gather]
    and [gather_nd], then [copy_array], [to_numpy], [floormod], [unstack],
    [inplace_decrement], [inplace_increment], [indices_where] and
    [one_hot], together with the numpy primitives they call.

    Conventions of the embedding.
    - An array is its shape and its elements in row-major order.  Element
      values are integers ([Z]): the development covers the integer dtypes
      on the range where numpy computes exactly (no wrap-around in sums,
      and the detour through float64 made by the sentinel arithmetic is
      exact below 2^53).
    - Python array objects that the code mutates or returns live in a
      store; a reference is a position in the store.  The functions run in
      a state-and-exception monad whose failures keep the store, so that
      what a failed call did to a caller's buffer can be stated.
    - numpy resolves overlapping operands of [ufunc.at] and of indexed
      assignment by copying, hence [indices] and [updates] are read as
      values; only [out] is passed by reference. *)

From stdpp Require Import base decidable option numbers list strings.
From Stdlib Require Import ZArith Lia.

(** ** Arrays *)

Record ndarray := NDArray { shape : list nat; data : list Z }.

Global Instance ndarray_eq_dec : EqDecision ndarray.
Proof. solve_decision. Defined.

Global Instance ndarray_inhabited : Inhabited ndarray :=
  populate (NDArray [] [0%Z]).

(** Number of elements of an array of shape [sh]. *)
Definition numel (sh : list nat) : nat := foldr Nat.mul 1 sh.

(** An array is well formed when it holds one element per position. *)
Definition wf (a : ndarray) : Prop := length (data a) = numel (shape a).

(** Row-major offset of a (possibly partial) coordinate tuple: the i-th
    coordinate is weighted by the stride of axis i. *)
Fixpoint ravel (sh : list nat) (idx : list nat) : nat :=
  match sh, idx with
  | _ :: sh', i :: idx' => i * numel sh' + ravel sh' idx'
  | _, _ => 0
  end.

(** Coordinates of a row-major offset. *)
Fixpoint unravel (sh : list nat) (p : nat) : list nat :=
  match sh with
  | [] => []
  | _ :: sh' => p / numel sh' :: unravel sh' (p mod numel sh')
  end.

(** [idx] is a full coordinate tuple inside [sh]. *)
Definition valid_index (sh idx : list nat) : Prop := Forall2 (λ i d, i < d) idx sh.

(** Element at a full coordinate tuple. *)
Definition nd_get (a : ndarray) (idx : list nat) : Z := data a !!! ravel (shape a) idx.

(** The array of shape [sh] whose element at coordinates [I] is [f I]. *)
Definition tabulate (sh : list nat) (f : list nat → Z) : ndarray :=
  NDArray sh ((λ p, f (unravel sh p)) <$> seq 0 (numel sh)).

(** ** Exceptions and the store *)

Inductive exn :=
  | AssertionError
  | TypeError
  | ValueError
  | IndexError
  | AttributeError
  | AxisError
  | Exception (msg : string).

Inductive outcome (A : Type) :=
  | Return (a : A)
  | Raise (e : exn).
Arguments Return {A} a.
Arguments Raise {A} e.

Definition loc := nat.
Definition heap := list ndarray.

(** A computation reads and updates the store and either returns or
    raises; in both cases the store it leaves is observable. *)
Definition M (A : Type) : Type := heap → heap * outcome A.

Definition ret {A} (a : A) : M A := λ h, (h, Return a).
Definition raise {A} (e : exn) : M A := λ h, (h, Raise e).
Definition bind {A B} (c : M A) (k : A → M B) : M B :=
  λ h, match c h with
       | (h', Return a) => k a h'
       | (h', Raise e) => (h', Raise e)
       end.
Definition lift {A} (o : outcome A) : M A := λ h, (h, o).

Notation "'let*' x ':=' c 'in' k" := (bind c (λ x, k))
  (at level 10, x name, c at level 100, k at level 200).
Notation "c ';;' k" := (bind c (λ _, k))
  (at level 100, k at level 200, right associativity).

(** The same sequencing for computations that only may fail. *)
Definition obind {A B} (o : outcome A) (k : A → outcome B) : outcome B :=
  match o with Return a => k a | Raise e => Raise e end.
Notation "'let?' x ':=' c 'in' k" := (obind c (λ x, k))
  (at level 10, x name, c at level 100, k at level 200).

Definition or_raise {A} (e : exn) (o : option A) : outcome A :=
  match o with Some a => Return a | None => Raise e end.

(** A new array object. *)
Definition alloc (a : ndarray) : M loc := λ h, (h ++ [a], Return (length h)).
(** The array a reference denotes; a dangling reference is a [TypeError]. *)
Definition load (l : loc) : M ndarray :=
  λ h, match h !! l with Some a => (h, Return a) | None => (h, Raise TypeError) end.
(** Overwrite the array a reference denotes, in place. *)
Definition store (l : loc) (a : ndarray) : M unit := λ h, (<[l:=a]> h, Return tt).
(** Python's [assert]. *)
Definition assert_ (b : bool) : M unit := if b then ret tt else raise AssertionError.

(** ** The numpy primitives used by the backend *)

Module np.

(** [np.zeros(sh)] and [np.ones(sh)]. *)
Definition zeros (sh : list nat) : ndarray := NDArray sh (replicate (numel sh) 0%Z).
Definition ones (sh : list nat) : ndarray := NDArray sh (replicate (numel sh) 1%Z).

(** [a * c] for a scalar [c]. *)
Definition mul_scalar (a : ndarray) (c : Z) : ndarray :=
  NDArray (shape a) ((λ x, x * c)%Z <$> data a).

(** [np.where(a == c, v, a)]. *)
Definition where_eq (a : ndarray) (c v : Z) : ndarray :=
  NDArray (shape a) ((λ x, if decide (x = c) then v else x) <$> data a).

(** An index [i] into an axis of length [dim]: negative indices count from
    the end, anything outside [-dim, dim) is an error. *)
Definition normalize_index (dim : nat) (i : Z) : option nat :=
  if decide (0 ≤ i < Z.of_nat dim)%Z then Some (Z.to_nat i)
  else if decide (- Z.of_nat dim ≤ i < 0)%Z then Some (Z.to_nat (i + Z.of_nat dim))
  else None.

(** *** Broadcasting *)

Definition broadcastable (src tgt : list nat) : bool :=
  bool_decide (length src ≤ length tgt) &&
  bool_decide (Forall2 (λ s t, s = t ∨ s = 1) src (drop (length tgt - length src) tgt)).

(** Where an element of the broadcast result comes from: the leading [pad]
    coordinates are dropped and an axis of length 1 is read at 0. *)
Definition bcast_index (src : list nat) (pad : nat) (I : list nat) : list nat :=
  zip_with (λ s i, if decide (s = 1) then 0 else i) src (drop pad I).

Definition broadcast_to (b : ndarray) (sh : list nat) : option ndarray :=
  if broadcastable (shape b) sh
  then Some (tabulate sh
               (λ I, nd_get b (bcast_index (shape b) (length sh - length (shape b)) I)))
  else None.

(** Indexed assignment accepts a value with more axes than the selection
    when the extra leading axes have length 1. *)
Fixpoint strip_unit_axes (n : nat) (sh : list nat) : list nat :=
  match n, sh with
  | S n', 1 :: sh' => strip_unit_axes n' sh'
  | _, _ => sh
  end.

Definition squeeze_leading (b : ndarray) (rank : nat) : ndarray :=
  NDArray (strip_unit_axes (length (shape b) - rank) (shape b)) (data b).

(** *** Advanced indexing

    An index [(c_0, ..., c_{k-1}, Ellipsis)] made of [k] integer arrays of
    a common shape [ishape]: item [j] addresses the sub-array at the
    coordinates [(c_0[j], ..., c_{k-1}[j])] of the leading [k] axes.  A
    single index array [indices] is the case [k = 1]. *)
Record fancy_index := FancyIndex { ishape : list nat; cols : list (list Z) }.

Definition index_array (indices : ndarray) : fancy_index :=
  FancyIndex (shape indices) [data indices].

Definition index_row (cs : list (list Z)) (j : nat) : list Z := (.!!! j) <$> cs.

Definition normalize_row (sh : list nat) (row : list Z) : option (list nat) :=
  mapM (λ di, normalize_index di.1 di.2) (zip sh row).

(** The offsets of the sub-array that starts at [base]. *)
Definition block_positions (block base : nat) : list nat := (λ t, base + t) <$> seq 0 block.

(** Offsets addressed by the index, item after item; [None] when some
    coordinate is out of bounds (numpy checks them all before it writes). *)
Definition fancy_positions (sh : list nat) (ix : fancy_index) : option (list nat) :=
  rows ← mapM (λ j, normalize_row sh (index_row (cols ix) j)) (seq 0 (numel (ishape ix)));
  Some (concat ((λ r, block_positions (numel (drop (length (cols ix)) sh)) (ravel sh r)) <$> rows)).

(** Apply the writes in order: the element at each offset is combined with
    the value paired with it. *)
Definition scatter_with (f : Z → Z → Z) (d : list Z) (pos : list nat) (vals : list Z) : list Z :=
  foldl (λ d pv, alter (λ old, f old pv.2) pv.1 d) d (zip pos vals).

Definition indexed_update (f : Z → Z → Z) (a : ndarray) (ix : fancy_index) (b : ndarray)
  : outcome ndarray :=
  let k := length (cols ix) in
  if decide (k ≤ length (shape a)) then
    let? pos := or_raise IndexError (fancy_positions (shape a) ix) in
    let? vals := or_raise ValueError (broadcast_to b (ishape ix ++ drop k (shape a))) in
    Return (NDArray (shape a) (scatter_with f (data a) pos (data vals)))
  else Raise IndexError.

(** [ufunc.at(target, ix, b)]: unbuffered in-place [target[ix] = f(target[ix], b)]. *)
Definition ufunc_at (f : Z → Z → Z) (target : loc) (ix : fancy_index) (b : ndarray) : M unit :=
  let* a := load target in
  let* a' := lift (indexed_update f a ix b) in
  store target a'.

Definition add_at := ufunc_at Z.add.
Definition minimum_at := ufunc_at Z.min.
Definition maximum_at := ufunc_at Z.max.

(** [target[ix] = b]. *)
Definition setitem (target : loc) (ix : fancy_index) (b : ndarray) : M unit :=
  let* a := load target in
  let rank := length (ishape ix) + (length (shape a) - length (cols ix)) in
  let* a' := lift (indexed_update (λ _ v, v) a ix (squeeze_leading b rank)) in
  store target a'.

(** [np.asarray(target).copy()]: a new object with the same contents. *)
Definition copy (target : loc) : M loc :=
  let* a := load target in alloc a.

(** [np.take(a, idx, 0)] on a flat array, with the default mode ['raise']. *)
Definition take_elems (a : list Z) (idx : list Z) : outcome (list Z) :=
  or_raise IndexError (mapM (λ i, p ← normalize_index (length a) i; a !! p) idx).

(** *** Shapes, slices and element-wise operations *)

(** [np.reshape(a, sh)]: same elements, new shape of the same size. *)
Definition reshape (a : ndarray) (sh : list nat) : outcome ndarray :=
  if decide (numel sh = length (data a)) then Return (NDArray sh (data a))
  else Raise ValueError.

(** [a.reshape(-1, k)]: the number of rows is inferred, which numpy
    refuses when [k] is 0 or does not divide the size. *)
Definition reshape_rows (a : ndarray) (k : nat) : outcome ndarray :=
  if decide (k = 0) then Raise ValueError
  else if decide (length (data a) `mod` k = 0)
       then Return (NDArray [length (data a) `div` k; k] (data a))
       else Raise ValueError.

(** [np.reshape(a, (-1,))]. *)
Definition ravel_array (a : ndarray) : ndarray := NDArray [length (data a)] (data a).

(** [a.T]: the axes in reverse order. *)
Definition T (a : ndarray) : ndarray :=
  tabulate (reverse (shape a)) (λ I, nd_get a (reverse I)).

(** Iteration over the first axis, as [tuple(a)] does: the sub-arrays
    [a[0], a[1], ...], each of shape [tail (shape a)]. *)
Definition iter_first (a : ndarray) : list (list Z) :=
  let m := numel (tail (shape a)) in
  (λ j, take m (drop (j * m) (data a))) <$> seq 0 (hd 0 (shape a)).

(** [tuple(a) + (Ellipsis,)] used as an index. *)
Definition index_tuple (a : ndarray) : fancy_index :=
  FancyIndex (tail (shape a)) (iter_first a).

Definition pad_left (n : nat) (l : list nat) : list nat := replicate (n - length l) 1 ++ l.

Definition broadcast_shapes (s t : list nat) : option (list nat) :=
  let r := length s `max` length t in
  mapM (λ xy, if decide (xy.1 = xy.2) then Some xy.1
              else if decide (xy.1 = 1) then Some xy.2
              else if decide (xy.2 = 1) then Some xy.1 else None)
       (zip (pad_left r s) (pad_left r t)).

(** A binary ufunc with broadcasting, [a * b] or [a + b]. *)
Definition binop (f : Z → Z → Z) (a b : ndarray) : outcome ndarray :=
  let? sh := or_raise ValueError (broadcast_shapes (shape a) (shape b)) in
  let? a' := or_raise ValueError (broadcast_to a sh) in
  let? b' := or_raise ValueError (broadcast_to b sh) in
  Return (NDArray sh (zip_with f (data a') (data b'))).

Definition multiply := binop Z.mul.
Definition add := binop Z.add.

Definition Zsum (l : list Z) : Z := foldr Z.add 0%Z l.
Definition Zprod (l : list Z) : Z := foldr Z.mul 1%Z l.

(** [np.sum(a, -1, keepdims=True)]. *)
Definition sum_last_keepdims (a : ndarray) : outcome ndarray :=
  match last (shape a) with
  | None => Raise AxisError
  | Some m =>
      let batch := removelast (shape a) in
      Return (NDArray (batch ++ [1])
                ((λ j, Zsum (take m (drop (j * m) (data a)))) <$> seq 0 (numel batch)))
  end.

(** [np.tile(a, reps)]. *)
Definition tile (a : ndarray) (reps : list nat) : ndarray :=
  let r := length (shape a) `max` length reps in
  let sh := pad_left r (shape a) in
  tabulate (zip_with Nat.mul sh (pad_left r reps))
           (λ I, data a !!! ravel sh (zip_with Nat.modulo I sh)).

(** [np.arange(n)] and [np.expand_dims(a, 0)]. *)
Definition arange (n : nat) : ndarray := NDArray [n] (Z.of_nat <$> seq 0 n).
Definition expand_dims0 (a : ndarray) : ndarray := NDArray (1 :: shape a) (data a).

(** [a.astype(np.int32)]: two's complement wrap-around to 32 bits. *)
Definition wrap32 (z : Z) : Z := ((z + 2 ^ 31) `mod` 2 ^ 32 - 2 ^ 31)%Z.
Definition astype_int32 (a : ndarray) : ndarray := NDArray (shape a) (wrap32 <$> data a).

(** [np.take(a, idx, 0)] for a flat [a]: the result has the shape of [idx]. *)
Definition take_flat (a idx : ndarray) : outcome ndarray :=
  let? d := take_elems (data a) (data idx) in Return (NDArray (shape idx) d).

(** Exchange the entries at positions [i] and [j]. *)
Definition swap {A} `{Inhabited A} (l : list A) (i j : nat) : list A :=
  <[i := l !!! j]> (<[j := l !!! i]> l).

(** An axis argument of an array of rank [r]; [-1] is the last axis. *)
Definition normalize_axis (r : nat) (axis : Z) : outcome nat :=
  or_raise AxisError (normalize_index r axis).

(** [np.swapaxes(a, axis1, axis2)]. *)
Definition swapaxes (a : ndarray) (axis1 axis2 : Z) : outcome ndarray :=
  let? i := normalize_axis (length (shape a)) axis1 in
  let? j := normalize_axis (length (shape a)) axis2 in
  Return (tabulate (swap (shape a) i j) (λ I, nd_get a (swap I i j))).

(** Bounds of a Python slice [start:stop] of an axis of length [m]. *)
Definition slice_bound (m : nat) (default : nat) (b : option Z) : nat :=
  match b with
  | None => default
  | Some z => if decide (z < 0)%Z then Z.to_nat (z + Z.of_nat m) else Z.to_nat z `min` m
  end.

(** [a[..., start:stop]]. *)
Definition slice_last (a : ndarray) (start stop : option Z) : outcome ndarray :=
  match last (shape a) with
  | None => Raise IndexError
  | Some m =>
      let lo := slice_bound m 0 start in
      let hi := slice_bound m m stop in
      let batch := removelast (shape a) in
      Return (tabulate (batch ++ [hi - lo])
                (λ I, nd_get a (take (length batch) I ++ [lo + I !!! length batch])))
  end.

Definition ones_like (a : ndarray) : ndarray := ones (shape a).

(** [np.concatenate((a, b), -1)]. *)
Definition concatenate_last (a b : ndarray) : outcome ndarray :=
  match last (shape a), last (shape b) with
  | Some ma, Some mb =>
      let batch := removelast (shape a) in
      if decide (removelast (shape b) = batch) then
        Return (tabulate (batch ++ [ma + mb])
                  (λ I, let c := I !!! length batch in
                        if decide (c < ma) then nd_get a I
                        else nd_get b (take (length batch) I ++ [c - ma])))
      else Raise ValueError
  | _, _ => Raise ValueError
  end.

(** [np.cumprod(a, axis)]: the element at [I] is the product of the
    elements of its lane along [axis] up to and including [I]. *)
Definition cumprod (a : ndarray) (axis : Z) : outcome ndarray :=
  let? ax := normalize_axis (length (shape a)) axis in
  Return (tabulate (shape a)
            (λ I, Zprod ((λ j, nd_get a (<[ax:=j]> I)) <$> seq 0 (S (I !!! ax))))).

(** [np.take_along_axis(arr, indices, axis)] for an integer [axis]: the
    axes other than [axis] broadcast against each other, and along [axis]
    the result reads [arr] at the position [indices] names. *)
Definition along_shape (ax : nat) (sa si : list nat) : option (list nat) :=
  mapM (λ dxy, let '(d, (x, y)) := dxy in
               if decide (d = ax) then Some y
               else if decide (x = y) then Some x
               else if decide (x = 1) then Some y
               else if decide (y = 1) then Some x else None)
       (zip (seq 0 (length sa)) (zip sa si)).

Definition clip_index (sh I : list nat) : list nat :=
  zip_with (λ s i, if decide (s = 1) then 0 else i) sh I.

Definition take_along (arr indices : ndarray) (ax : nat) : outcome ndarray :=
  if decide (length (shape indices) = length (shape arr)) then
    let? sh := or_raise IndexError (along_shape ax (shape arr) (shape indices)) in
    let? d := or_raise IndexError
      (mapM (λ p, let I := unravel sh p in
                  i ← normalize_index (shape arr !!! ax) (nd_get indices (clip_index (shape indices) I));
                  Some (nd_get arr (<[ax:=i]> (clip_index (shape arr) I))))
            (seq 0 (numel sh))) in
    Return (NDArray sh d)
  else Raise ValueError.

Definition take_along_axis (arr indices : ndarray) (axis : option Z) : outcome ndarray :=
  match axis with
  | None => take_along (ravel_array arr) indices 0
  | Some axis =>
      let? ax := normalize_axis (length (shape arr)) axis in
      take_along arr indices ax
  end.

(** [np.array(l)] of a list of sizes, and [a[i].item()] with Python's
    indexing of a one-dimensional array. *)
Definition array (l : list nat) : ndarray := NDArray [length l] (Z.of_nat <$> l).
Definition item (a : ndarray) (i : Z) : outcome Z :=
  or_raise IndexError (p ← normalize_index (length (data a)) i; data a !! p).

(** [np.copyto(dst, src)] for arrays of one shape. *)
Definition copyto (dst src : loc) : M unit :=
  let* a := load src in
  let* _ := load dst in
  store dst a.

(** *** Primitives of the other backend functions *)




(** [np.eye(n)]. *)
Definition eye (n : nat) : ndarray :=
  tabulate [n; n] (λ I, if decide (I !!! 0 = I !!! 1) then 1%Z else 0%Z).

(** [a[ix]]: the sub-arrays the index addresses, item after item. *)
Definition getitem (a : ndarray) (ix : fancy_index) : outcome ndarray :=
  let k := length (cols ix) in
  if decide (k ≤ length (shape a)) then
    let? pos := or_raise IndexError (fancy_positions (shape a) ix) in
    Return (NDArray (ishape ix ++ drop k (shape a)) ((data a !!!.) <$> pos))
  else Raise IndexError.

(** [np.expand_dims(a, -1)]. *)
Definition expand_dims_last (a : ndarray) : ndarray := NDArray (shape a ++ [1]) (data a).

(** [np.where(x)] with one argument, that is [x.nonzero()]: for every axis
    the coordinates of the non-zero elements, in row-major order.  numpy 1
    reads a 0-d array as an array of one element. *)
Definition nonzero (x : ndarray) : list ndarray :=
  let sh := if decide (shape x = []) then [1] else shape x in
  let nz := filter (λ p, data x !!! p ≠ 0%Z) (seq 0 (numel sh)) in
  (λ c, NDArray [length nz] ((λ p, Z.of_nat (unravel sh p !!! c)) <$> nz))
    <$> seq 0 (length sh).

(** The element at column [c] of the lane [J] when the arrays [arrs] lie
    side by side along their last axis. *)
Fixpoint concat_pick (arrs : list ndarray) (J : list nat) (c : nat) : Z :=
  match arrs with
  | [] => 0%Z
  | a :: rest =>
      let m := default 0 (last (shape a)) in
      if decide (c < m) then nd_get a (J ++ [c]) else concat_pick rest J (c - m)
  end.

(** [np.concatenate(arrs, -1, out=out)]. *)
Definition concatenate_all (arrs : list ndarray) : outcome ndarray :=
  match arrs with
  | [] => Raise ValueError
  | a :: _ =>
      let batch := removelast (shape a) in
      if bool_decide (Forall (λ b, shape b ≠ [] ∧ removelast (shape b) = batch) arrs) then
        Return (tabulate (batch ++ [sum_list ((λ b, default 0 (last (shape b))) <$> arrs)])
                  (λ I, concat_pick arrs (take (length batch) I) (I !!! length batch)))
      else Raise ValueError
  end.

Definition concatenate_out (arrs : list ndarray) (out : option loc) : M loc :=
  let* res := lift (concatenate_all arrs) in
  match out with
  | None => alloc res
  | Some o =>
      let* a := load o in
      if decide (shape a = shape res) then store o res ;; ret o
      else raise ValueError
  end.

(** Python's [ZeroDivisionError], which [np.split] raises beside the
    exceptions of the engine. *)
Inductive pyexn :=
  | Exn (e : exn)
  | ZeroDivisionError.

(** [np.split(ary, sections, axis)] for an integer [sections]: numpy reads
    [N = ary.shape[axis]], computes [N % sections], which Python refuses
    for 0 sections, rejects a remainder other than 0 and cuts the axis in
    [sections] parts of equal length. *)
Definition split (ary : ndarray) (sections : nat) (axis : Z) : pyexn + list ndarray :=
  match normalize_index (length (shape ary)) axis with
  | None => inl (Exn IndexError)
  | Some ax =>
      let N := shape ary !!! ax in
      if decide (sections = 0) then inl ZeroDivisionError
      else if decide (N `mod` sections = 0) then
        let each := N `div` sections in
        inr ((λ i, tabulate (<[ax := each]> (shape ary))
                     (λ I, nd_get ary (<[ax := i * each + I !!! ax]> I)))
               <$> seq 0 sections)
      else inl (Exn ValueError)
  end.

(** [np.squeeze(a, axis)]: the axis must have length 1. *)
Definition squeeze (a : ndarray) (axis : Z) : outcome ndarray :=
  let? ax := normalize_axis (length (shape a)) axis in
  if decide (shape a !! ax = Some 1) then Return (NDArray (delete ax (shape a)) (data a))
  else Raise ValueError.

End np.

(** ** The framework functions the backend relies on *)

Module ivy.

(** [ivy.exists(x)]: [x is not None]. *)
Definition exists_ {A} (x : option A) : bool := bool_decide (is_Some x).

(** Modelled from the spec: [_to_device] of the numpy device module, which
    is not among the sources; it stamps a result with the configured
    device without changing its contents, so the reference passes through. *)
Definition _to_device (x : loc) : M loc := ret x.

(** Modelled from the spec: the class [ivy.Shape], which is not among the
    sources; two shapes are equal when their dimensions are. *)
Definition Shape (sh : list nat) : list nat := sh.

End ivy.

(** ** The backend functions *)

(** [inplace_update(x, val)] on two native arrays (both satisfy
    [ivy.is_array], are their own native form and are C-contiguous, and
    the store holds one dtype).  The wrapper [ivy.Array(x_native)] that is
    returned shares the buffer of [x_native]: the result is the reference
    to that buffer. *)
Definition inplace_update (x val : loc) : M loc :=
  let* x_native := load x in
  let* val_native := load val in
  if decide (shape val_native = shape x_native) then
    np.copyto x val ;;
    ret x
  else
    ret val.

(** The sentinel [1e12] of the [min] and [max] reductions. *)
Definition sentinel : Z := 1000000000000.

(** The message of the exception raised for an unknown reduction. *)
Definition dquote : string := String (Ascii.ascii_of_nat 34) EmptyString.
Definition reduction_message (reduction : string) : string :=
  "reduction is " +:+ reduction +:+ ", but it must be one of " +:+
  dquote +:+ "sum" +:+ dquote +:+ ", " +:+
  dquote +:+ "min" +:+ dquote +:+ " or " +:+ dquote +:+ "max" +:+ dquote.

(** [np.zeros([size], ...)] and [np.ones([size], ...) * c] where [size] may
    be [None], which numpy rejects. *)
Definition new_filled (sh : option (list nat)) (mk : list nat → ndarray) : M loc :=
  match sh with
  | Some sh => alloc (mk sh)
  | None => raise TypeError
  end.

Definition scatter_flat (indices updates : ndarray) (size : option nat)
    (reduction : string) (out : option loc) : M loc :=
  let target := out in
  let target_given := ivy.exists_ target in
  match size, target with
  | Some sz, Some t =>
      let* a := load t in
      assert_ (bool_decide (length (shape a) = 1) && bool_decide (shape a !! 0 = Some sz))
  | _, _ => ret tt
  end ;;
  let size1 := (λ sz, [sz]) <$> size in
  if decide (reduction = "sum") then
    let* target := match target with
                   | None => new_filled size1 np.zeros
                   | Some t => ret t
                   end in
    np.add_at target (np.index_array indices) updates ;;
    ivy._to_device target
  else if decide (reduction = "replace") then
    let* target := match target with
                   | None => new_filled size1 np.zeros
                   | Some t => ret t
                   end in
    let* target := np.copy target in
    np.setitem target (np.index_array indices) updates ;;
    ivy._to_device target
  else if decide (reduction = "min") then
    let* target := match target with
                   | None => new_filled size1 (λ sh, np.mul_scalar (np.ones sh) sentinel)
                   | Some t => ret t
                   end in
    np.minimum_at target (np.index_array indices) updates ;;
    let* target := if negb target_given
                   then let* a := load target in alloc (np.where_eq a sentinel 0)
                   else ret target in
    ivy._to_device target
  else if decide (reduction = "max") then
    let* target := match target with
                   | None => new_filled size1 (λ sh, np.mul_scalar (np.ones sh) (- sentinel))
                   | Some t => ret t
                   end in
    np.maximum_at target (np.index_array indices) updates ;;
    let* target := if negb target_given
                   then let* a := load target in alloc (np.where_eq a (- sentinel) 0)
                   else ret target in
    ivy._to_device target
  else
    raise (Exception (reduction_message reduction)).

Definition scatter_nd (indices updates : ndarray) (shape_arg : option (list nat))
    (reduction : string) (out : option loc) : M loc :=
  let target := out in
  let target_given := ivy.exists_ target in
  match shape_arg, target with
  | Some sh, Some t =>
      let* a := load t in
      assert_ (bool_decide (ivy.Shape (shape a) = ivy.Shape sh))
  | _, _ => ret tt
  end ;;
  let* shape_list := match shape_arg, out with
                | Some sh, _ => ret sh
                | None, Some o => let* a := load o in ret (shape a)
                | None, None => raise AttributeError
                end in
  let* k := lift (or_raise IndexError (last (shape indices))) in
  let* indices_rows := lift (np.reshape_rows indices k) in
  let indices_flat := np.T indices_rows in
  let indices_tuple := np.index_tuple indices_flat in
  let* target :=
    if decide (reduction = "sum") then
      let* target := match target with
                     | None => alloc (np.zeros shape_list)
                     | Some t => ret t
                     end in
      np.add_at target indices_tuple updates ;;
      ret target
    else if decide (reduction = "replace") then
      let* target := match target with
                     | None => alloc (np.zeros shape_list)
                     | Some t => ret t
                     end in
      let* target := np.copy target in
      np.setitem target indices_tuple updates ;;
      ret target
    else if decide (reduction = "min") then
      let* target := match target with
                     | None => alloc (np.mul_scalar (np.ones shape_list) sentinel)
                     | Some t => ret t
                     end in
      np.minimum_at target indices_tuple updates ;;
      if negb target_given
      then let* a := load target in alloc (np.where_eq a sentinel 0)
      else ret target
    else if decide (reduction = "max") then
      let* target := match target with
                     | None => alloc (np.mul_scalar (np.ones shape_list) (- sentinel))
                     | Some t => ret t
                     end in
      np.maximum_at target indices_tuple updates ;;
      if negb target_given
      then let* a := load target in alloc (np.where_eq a (- sentinel) 0)
      else ret target
    else
      raise (Exception (reduction_message reduction)) in
  if ivy.exists_ out then
    let* o := lift (or_raise TypeError out) in
    let* t := ivy._to_device target in
    inplace_update o t
  else
    ivy._to_device target.

(** [dtype] only selects the element type, through the framework's
    [infer_default_dtype]; it leaves integer values as they are and is not
    a parameter of the embedding. *)
Definition cumprod (x : ndarray) (axis : Z) (exclusive : bool) (out : option loc) : M loc :=
  if exclusive then
    let* x := lift (np.swapaxes x axis (-1)) in
    let* last1 := lift (np.slice_last x (Some (-1)%Z) None) in
    let* front := lift (np.slice_last x None (Some (-1)%Z)) in
    let* x := lift (np.concatenate_last (np.ones_like last1) front) in
    let* res := lift (np.cumprod x (-1)) in
    let* res := lift (np.swapaxes res axis (-1)) in
    let* res := alloc res in
    match out with
    | Some o => inplace_update o res
    | None => ret res
    end
  else
    let* res := lift (np.cumprod x axis) in
    match out with
    | Some o =>
        let* a := load o in
        if decide (shape a = shape res) then store o res ;; ret o
        else raise ValueError
    | None => alloc res
    end.

Definition gather (params indices : ndarray) (axis : option Z) (out : option loc) : M loc :=
  let* r := lift (np.take_along_axis params indices axis) in
  let* r := alloc r in
  ivy._to_device r.

Definition gather_nd (params indices : ndarray) (out : option loc) : M loc :=
  let indices_shape := shape indices in
  let params_shape := shape params in
  let* num_index_dims := lift (or_raise IndexError (last indices_shape)) in
  let result_dim_sizes_list :=
    ((λ i, foldl Nat.mul 1 (drop (i + 1) params_shape))
       <$> seq 0 (length params_shape - 1)) ++ [1] in
  let result_dim_sizes := np.array result_dim_sizes_list in
  let* implicit_indices_factor :=
    lift (let? f := np.item result_dim_sizes (Z.of_nat num_index_dims - 1) in
          Return (Z.to_nat f)) in
  let flat_params := np.ravel_array params in
  let new_shape := replicate (length indices_shape - 1) 1 ++ [num_index_dims] in
  let* indices_scales :=
    lift (np.reshape (np.array (take num_index_dims result_dim_sizes_list)) new_shape) in
  let* scaled := lift (np.multiply indices indices_scales) in
  let* summed := lift (np.sum_last_keepdims scaled) in
  let* column := lift (np.reshape_rows summed 1) in
  let indices_for_flat_tiled := np.tile column [1; implicit_indices_factor] in
  let implicit_indices :=
    np.tile (np.expand_dims0 (np.arange implicit_indices_factor))
            [hd 0 (shape indices_for_flat_tiled); 1] in
  let* indices_for_flat := lift (np.add indices_for_flat_tiled implicit_indices) in
  let flat_indices_for_flat := np.astype_int32 (np.ravel_array indices_for_flat) in
  let* flat_gather := lift (np.take_flat flat_params flat_indices_for_flat) in
  let new_shape := removelast indices_shape ++ drop num_index_dims params_shape in
  let* res := lift (np.reshape flat_gather new_shape) in
  let* r := alloc res in
  ivy._to_device r.

(** ** The other functions of the backend

    [copy_array], [to_numpy], [floormod], [unstack], [inplace_decrement],
    [inplace_increment], [indices_where] and [one_hot].  As above, arrays
    that are only read are passed as values and arrays that are written or
    handed back are references. *)




(** A list comprehension whose body may raise. *)
Fixpoint for_each {A B} (f : A → outcome B) (l : list A) : outcome (list B) :=
  match l with
  | [] => Return []
  | x :: l' => let? y := f x in let? ys := for_each f l' in Return (y :: ys)
  end.

(** [x.shape[axis]] is Python's indexing of a tuple.  The pieces are views
    of [x] in numpy; the embedding gives their contents. *)
Definition unstack (x : ndarray) (axis : Z) (keepdims : bool) : np.pyexn + list ndarray :=
  if decide (shape x = []) then inr [x]
  else
    match np.normalize_index (length (shape x)) axis with
    | None => inl (np.Exn IndexError)
    | Some ax =>
        match np.split x (shape x !!! ax) axis with
        | inl e => inl e
        | inr x_split =>
            if keepdims then inr x_split
            else
              match for_each (λ item, np.squeeze item axis) x_split with
              | Return l => inr l
              | Raise e => inl (np.Exn e)
              end
        end
    end.



Definition indices_where (x : ndarray) (out : option loc) : M loc :=
  let where_x := np.nonzero x in
  if decide (length where_x = 1) then
    let* w := lift (or_raise IndexError (where_x !! 0)) in
    alloc (np.expand_dims_last w)
  else
    np.concatenate_out (np.expand_dims_last <$> where_x) out.

Definition one_hot (indices : ndarray) (depth : nat) (device : string) (out : option loc)
  : M loc :=
  let* res := lift (np.getitem (np.eye depth) (np.index_array (np.ravel_array indices))) in
  let* res := lift (np.reshape res (shape indices ++ [depth])) in
  alloc res.

(** ** Notions used to state the properties *)

(** A one-dimensional array. *)
Definition vector (l : list Z) : ndarray := NDArray [length l] l.

(** The values written to offset [q], in the order of the writes, when
    the values [vals] go to the offsets [pos]. *)
Definition hits (q : nat) (pos : list nat) (vals : list Z) : list Z :=
  snd <$> filter (λ pv, pv.1 = q) (zip pos vals).



(** The offsets addressed by the coordinate rows [rows], each of [k]
    leading coordinates of an array of shape [sh]: row after row, the
    block of the sub-array the row selects. *)
Definition addressed (sh : list nat) (k : nat) (rows : list (list nat)) : list nat :=
  concat ((λ r, np.block_positions (numel (drop k sh)) (ravel sh r)) <$> rows).

(** The data of an index tensor whose rows are the coordinate tuples
    [rows], all non-negative. *)
Definition coords_data (rows : list (list nat)) : list Z :=
  concat ((λ r : list nat, Z.of_nat <$> r) <$> rows).

(** The row-major stride of every axis of an array of shape [sh], as
    [gather_nd] computes them in [result_dim_sizes_list]. *)
Definition strides_of (sh : list nat) : list nat :=
  ((λ i, foldl Nat.mul 1 (drop (i + 1) sh)) <$> seq 0 (length sh - 1)) ++ [1].

(** The values [gather_nd] goes through, for an index tensor of [n] rows
    of [k] coordinates given by [rows]: the batch shape of the index
    tensor (its shape without the last axis), the size of the slice a row
    selects, the strides of the addressed axes, these strides repeated for
    every row, the offset of each row, the flat offsets of all the elements
    read, and the elements themselves. *)
Definition index_batch (indices : ndarray) : list nat := removelast (shape indices).
Definition gather_block (params : ndarray) (k : nat) : nat :=
  numel (drop k (shape params)).
Definition gather_scales (params : ndarray) (k : nat) : list Z :=
  Z.of_nat <$> take k (strides_of (shape params)).
Definition scale_cycle (params : ndarray) (k n : nat) : list Z :=
  (λ p, gather_scales params k !!! (p mod k)) <$> seq 0 (n * k).
Definition row_bases (params : ndarray) (rows : list (list nat)) : list Z :=
  (λ r, Z.of_nat (ravel (shape params) r)) <$> rows.
Definition flat_offsets (params : ndarray) (k n : nat) (rows : list (list nat)) : list Z :=
  (λ p : nat, Z.add (row_bases params rows !!! (p / gather_block params k))
                    (Z.of_nat (p mod gather_block params k)))
    <$> seq 0 (n * gather_block params k).
Definition gathered (params : ndarray) (k n : nat) (rows : list (list nat)) : list Z :=
  (λ p, data params !!! (ravel (shape params) (rows !!! (p / gather_block params k))
                         + p mod gather_block params k))
    <$> seq 0 (n * gather_block params k).

(** The [j]-th row of an index tensor whose last axis has length [k]. *)
Definition index_row_of (indices : ndarray) (k j : nat) : list Z :=
  take k (drop (j * k) (data indices)).

(** [a[c_0, ..., c_{k-1}]]: the sub-array at the leading coordinates
    [coords], one axis after the other. *)
Fixpoint subarray_data (sh : list nat) (d : list Z) (coords : list nat) : list Z :=
  match coords, sh with
  | [], _ => d
  | c :: coords', _ :: sh' => subarray_data sh' (take (numel sh') (drop (c * numel sh') d)) coords'
  | _ :: _, [] => []
  end.

(** The rows of an index tensor with [n] rows of [k] coordinates, each
    coordinate brought into the range of its axis of [sh]. *)
Definition normalized_rows (sh : list nat) (indices : ndarray) (n k : nat)
  : option (list (list nat)) :=
  mapM (λ j, np.normalize_row sh (index_row_of indices k j)) (seq 0 n).

Definition subarray (a : ndarray) (coords : list nat) : ndarray :=
  NDArray (drop (length coords) (shape a)) (subarray_data (shape a) (data a) coords).




(** The offsets of the non-zero elements of [x], in increasing order. *)
Definition nonzero_offsets (x : ndarray) : list nat :=
  filter (λ p, data x !!! p ≠ 0%Z) (seq 0 (numel (shape x))).

(** * Properties *)

(** ** Shapes, offsets and tabulated arrays *)

Section shapes.
Implicit Types (sh s t I : list nat) (p : nat).

Lemma numel_cons d sh : numel (d :: sh) = d * numel sh.
Proof. reflexivity. Qed.

Lemma numel_app s t : numel (s ++ t) = numel s * numel t.
Proof. induction s as [|d s IH]; simpl; [lia|]. rewrite IH. lia. Qed.

Lemma unravel_length sh p : length (unravel sh p) = length sh.
Proof. revert p. induction sh as [|d sh IH]; intros p; simpl; [done|]. by rewrite IH. Qed.

Lemma valid_index_length sh I : valid_index sh I → length I = length sh.
Proof. apply Forall2_length. Qed.

Lemma unravel_valid sh p : p < numel sh → valid_index sh (unravel sh p).
Proof.
  revert p. induction sh as [|d sh IH]; intros p Hp; simpl in *.
  - constructor.
  - assert (numel sh ≠ 0) by (intros E; rewrite E in Hp; lia).
    constructor.
    + apply Nat.Div0.div_lt_upper_bound. lia.
    + apply IH. by apply Nat.mod_upper_bound.
Qed.

Lemma ravel_unravel sh p : p < numel sh → ravel sh (unravel sh p) = p.
Proof.
  revert p. induction sh as [|d sh IH]; intros p Hp; simpl in *.
  - lia.
  - assert (numel sh ≠ 0) by (intros E; rewrite E in Hp; lia).
    rewrite IH by (by apply Nat.mod_upper_bound).
    pose proof (Nat.div_mod_eq p (numel sh)). lia.
Qed.

Lemma ravel_lt sh I : valid_index sh I → ravel sh I < numel sh.
Proof.
  intros H. induction H as [|i d I sh Hi _ IH]; simpl; [lia|]. nia.
Qed.

Lemma unravel_ravel sh I : valid_index sh I → unravel sh (ravel sh I) = I.
Proof.
  intros H. induction H as [|i d I sh Hi HI IH]; simpl; [done|].
  pose proof (ravel_lt _ _ HI) as Hlt.
  assert (numel sh ≠ 0) by lia.
  f_equal.
  - rewrite Nat.div_add_l by done. rewrite Nat.div_small by done. lia.
  - rewrite Nat.add_comm, Nat.Div0.mod_add, Nat.mod_small by done. done.
Qed.

Lemma ravel_nil_r sh : ravel sh [] = 0.
Proof. by destruct sh. Qed.

Lemma ravel_app s t I J :
  length I = length s →
  ravel (s ++ t) (I ++ J) = ravel s I * numel t + ravel t J.
Proof.
  revert I. induction s as [|d s IH]; intros [|i I] Hlen; simplify_eq/=; [done|].
  rewrite IH by done. rewrite numel_app. lia.
Qed.

Lemma ravel_prefix s t I :
  length I = length s → ravel (s ++ t) I = ravel s I * numel t.
Proof.
  intros Hlen. rewrite <-(app_nil_r I) at 1. rewrite ravel_app by done.
  rewrite ravel_nil_r. lia.
Qed.

Lemma valid_index_app s t I J :
  valid_index s I → valid_index t J → valid_index (s ++ t) (I ++ J).
Proof. apply Forall2_app. Qed.

Lemma ravel_inj sh I J :
  valid_index sh I → valid_index sh J → ravel sh I = ravel sh J → I = J.
Proof.
  intros HI HJ E. rewrite <-(unravel_ravel sh I), <-(unravel_ravel sh J) by done.
  by rewrite E.
Qed.
End shapes.

Section tabulate.

Lemma tabulate_lookup sh f p :
  p < numel sh → data (tabulate sh f) !! p = Some (f (unravel sh p)).
Proof.
  intros Hp. simpl. rewrite list_lookup_fmap, lookup_seq_lt by done. done.
Qed.

Lemma nd_get_tabulate sh f I :
  valid_index sh I → nd_get (tabulate sh f) I = f I.
Proof.
  intros HI. unfold nd_get.
  rewrite list_lookup_total_alt, tabulate_lookup by (by apply ravel_lt).
  simpl. by rewrite unravel_ravel.
Qed.

Lemma tabulate_ext sh f g :
  (∀ I, valid_index sh I → f I = g I) → tabulate sh f = tabulate sh g.
Proof.
  intros H. unfold tabulate. f_equal. apply list_eq. intros p.
  rewrite !list_lookup_fmap.
  destruct (seq 0 (numel sh) !! p) as [q|] eqn:E; simpl; [|done].
  apply lookup_seq in E as [-> ?]. f_equal. apply H. by apply unravel_valid.
Qed.

Lemma tabulate_nd_get a : wf a → tabulate (shape a) (nd_get a) = a.
Proof.
  destruct a as [sh d]. unfold wf, tabulate, nd_get; simpl. intros Hwf. f_equal.
  apply list_eq. intros p. rewrite list_lookup_fmap.
  destruct (decide (p < numel sh)) as [Hp|Hp].
  - rewrite lookup_seq_lt by done. simpl. rewrite ravel_unravel by done.
    rewrite list_lookup_total_alt.
    destruct (d !! p) eqn:E; [done|]. apply lookup_ge_None in E. lia.
  - rewrite lookup_seq_ge by lia. symmetry. apply lookup_ge_None. lia.
Qed.
End tabulate.

(** ** The store *)

Section store.
Implicit Types (h : heap) (a : ndarray) (l : loc).

Lemma load_run h l a : h !! l = Some a → load l h = (h, Return a).
Proof. intros E. unfold load. by rewrite E. Qed.

Lemma lookup_new h a : (h ++ [a]) !! length h = Some a.
Proof. by apply list_lookup_middle. Qed.


Lemma insert_new h a b : <[length h := b]> (h ++ [a]) = h ++ [b].
Proof. rewrite insert_app_r_alt by lia. by rewrite Nat.sub_diag. Qed.
End store.

(** C6.  When both an explicit size (for [scatter_flat]) or shape (for
    [scatter_nd]) and an output buffer are supplied and they disagree, the
    call fails on its assertion, whatever the reduction, and the store is
    left as it was: nothing was written to the output buffer. *)
Theorem shape_conflict_fails_before_any_write
    (indices updates : ndarray) (reduction : string) (o : loc) (a : ndarray) (h : heap) :
  h !! o = Some a →
  (∀ size, shape a ≠ [size] →
     scatter_flat indices updates (Some size) reduction (Some o) h = (h, Raise AssertionError)) ∧
  (∀ sh, shape a ≠ sh →
     scatter_nd indices updates (Some sh) reduction (Some o) h = (h, Raise AssertionError)).
Proof.
  intros Ho. split.
  - intros size Hne. unfold scatter_flat, bind. rewrite (load_run _ _ _ Ho).
    destruct (shape a) as [|d [|d' s]] eqn:Es; simpl; try done.
    rewrite bool_decide_eq_false_2; [done|]. intros [= ->]. done.
  - intros sh Hne. unfold scatter_nd, bind. rewrite (load_run _ _ _ Ho).
    unfold ivy.Shape. by rewrite bool_decide_eq_false_2.
Qed.

Lemma shape_conflict_fails_before_any_write_witness :
  let h := [np.zeros [5]] in
  scatter_flat (vector [0%Z]) (vector [1%Z]) (Some 4) "sum" (Some 0) h = (h, Raise AssertionError) ∧
  scatter_nd (NDArray [1; 1] [0%Z]) (vector [1%Z]) (Some [4]) "sum" (Some 0) h
    = (h, Raise AssertionError).
Proof.
  pose proof (shape_conflict_fails_before_any_write
    (vector [0%Z]) (vector [1%Z]) "sum" 0 (np.zeros [5]) [np.zeros [5]] eq_refl) as [H1 _].
  pose proof (shape_conflict_fails_before_any_write
    (NDArray [1; 1] [0%Z]) (vector [1%Z]) "sum" 0 (np.zeros [5]) [np.zeros [5]] eq_refl) as [_ H2].
  split; [apply H1 | apply H2]; discriminate.
Defined.

(** ** Indexed updates *)

Section scatter_with.
Context (f : Z → Z → Z).
Implicit Types (d vals : list Z) (pos : list nat).

Lemma scatter_with_length d pos vals : length (np.scatter_with f d pos vals) = length d.
Proof.
  unfold np.scatter_with. generalize (zip pos vals) as l. intros l. revert d.
  induction l as [|pv l IH]; intros d; simpl; [done|].
  by rewrite IH, length_alter.
Qed.

Lemma scatter_with_lookup d pos vals q :
  np.scatter_with f d pos vals !! q = (λ x, foldl f x (hits q pos vals)) <$> d !! q.
Proof.
  unfold np.scatter_with, hits. generalize (zip pos vals) as l. intros l. revert d.
  induction l as [|[p v] l IH]; intros d; simpl.
  - destruct (d !! q); reflexivity.
  - rewrite IH. rewrite filter_cons. simpl. destruct (decide (p = q)) as [->|Hne].
    + rewrite list_lookup_alter, decide_True by done. destruct (d !! q); reflexivity.
    + by rewrite list_lookup_alter_ne.
Qed.

Lemma scatter_with_app d pos1 pos2 vals1 vals2 :
  length pos1 = length vals1 →
  np.scatter_with f d (pos1 ++ pos2) (vals1 ++ vals2)
  = np.scatter_with f (np.scatter_with f d pos1 vals1) pos2 vals2.
Proof.
  intros Hlen. unfold np.scatter_with.
  rewrite zip_with_app by done. by rewrite foldl_app.
Qed.
End scatter_with.

Lemma hits_nil q vals : hits q [] vals = [].
Proof. done. Qed.

Lemma hits_cons q p pos v vals :
  hits q (p :: pos) (v :: vals) = if decide (p = q) then v :: hits q pos vals else hits q pos vals.
Proof. unfold hits. simpl. rewrite filter_cons. simpl. by destruct (decide (p = q)). Qed.

Lemma hits_not_elem q pos vals : q ∉ pos → hits q pos vals = [].
Proof.
  revert vals. induction pos as [|p pos IH]; intros vals Hq; [done|].
  destruct vals as [|v vals]; [done|].
  rewrite hits_cons. apply not_elem_of_cons in Hq as [? ?].
  rewrite decide_False by done. by apply IH.
Qed.

(** With pairwise distinct offsets, an offset receives exactly its value. *)
Lemma hits_NoDup pos vals i p v :
  NoDup pos → pos !! i = Some p → vals !! i = Some v → hits p pos vals = [v].
Proof.
  intros Hnd. revert vals i. induction Hnd as [|q pos Hq Hnd IH]; intros vals i Hp Hv; [done|].
  destruct vals as [|w vals]; [done|]. rewrite hits_cons.
  destruct i as [|i]; simplify_eq/=.
  - rewrite decide_True by done. by rewrite hits_not_elem.
  - rewrite decide_False; [by eapply IH|].
    intros ->. apply Hq. by eapply list_elem_of_lookup_2.
Qed.

Section update.
Lemma indexed_update_run f a ix b pos vals :
  length (np.cols ix) ≤ length (shape a) →
  np.fancy_positions (shape a) ix = Some pos →
  np.broadcast_to b (np.ishape ix ++ drop (length (np.cols ix)) (shape a)) = Some vals →
  np.indexed_update f a ix b
  = Return (NDArray (shape a) (np.scatter_with f (data a) pos (data vals))).
Proof.
  intros Hk Hpos Hvals. unfold np.indexed_update.
  rewrite decide_True by done. rewrite Hpos. simpl. rewrite Hvals. done.
Qed.

End update.

(** The offsets a one-dimensional index array addresses in a
    one-dimensional target are its normalized entries. *)
Lemma fancy_positions_flat size idx pos :
  mapM (np.normalize_index size) idx = Some pos →
  np.fancy_positions [size] (np.index_array (vector idx)) = Some pos.
Proof.
  intros Hpos. unfold np.fancy_positions. simpl.
  assert (mapM (λ j, np.normalize_row [size] [idx !!! j]) (seq 0 (length idx * 1))
          = Some ((λ p, [p]) <$> pos)) as ->.
  { apply mapM_Some in Hpos. apply mapM_Some.
    pose proof (Forall2_length _ _ _ Hpos) as Hlen.
    apply Forall2_same_length_lookup_2.
    { rewrite length_seq, length_fmap. lia. }
    intros j x r Hj Hr. apply lookup_seq in Hj as [-> Hj].
    rewrite list_lookup_fmap in Hr.
    destruct (pos !! j) as [p|] eqn:Ep; simplify_eq/=.
    destruct (idx !! j) as [z|] eqn:Ez; [|apply lookup_ge_None in Ez; lia].
    pose proof (Forall2_lookup_lr _ _ _ _ _ _ Hpos Ez Ep) as Hn.
    unfold np.normalize_row. simpl.
    rewrite (list_lookup_total_correct _ _ _ Ez). simpl. by rewrite Hn. }
  simpl. f_equal. clear Hpos. rewrite <-list_fmap_compose.
  induction pos as [|p pos IH]; [done|].
  rewrite fmap_cons. cbn [concat]. rewrite IH.
  unfold compose, np.block_positions. simpl. f_equal. lia.
Qed.

(** ** Indices, broadcasting and values written *)

Lemma normalize_index_lt dim i p : np.normalize_index dim i = Some p → p < dim.
Proof. unfold np.normalize_index. repeat case_decide; intros; simplify_eq; lia. Qed.

Lemma normalize_index_nonneg dim (i : nat) : i < dim → np.normalize_index dim (Z.of_nat i) = Some i.
Proof.
  intros Hi. unfold np.normalize_index. rewrite decide_True by lia. by rewrite Nat2Z.id.
Qed.

Lemma wf_zeros sh : wf (np.zeros sh).
Proof. unfold wf; simpl. by rewrite length_replicate. Qed.

Lemma wf_vector l : wf (vector l).
Proof. unfold wf; simpl. lia. Qed.

Section broadcast.
Lemma bcast_index_id sh I : valid_index sh I → np.bcast_index sh 0 I = I.
Proof.
  unfold np.bcast_index. rewrite drop_0.
  intros H. induction H as [|i d I sh Hi _ IH]; simpl; [done|].
  rewrite IH. case_decide; [f_equal; lia|done].
Qed.

Lemma broadcastable_refl sh : np.broadcastable sh sh = true.
Proof.
  unfold np.broadcastable. rewrite Nat.sub_diag, drop_0.
  rewrite bool_decide_eq_true_2 by done. apply bool_decide_eq_true_2.
  induction sh; constructor; auto.
Qed.

Lemma broadcast_to_id b : wf b → np.broadcast_to b (shape b) = Some b.
Proof.
  intros Hwf. unfold np.broadcast_to. rewrite broadcastable_refl, Nat.sub_diag.
  f_equal. transitivity (tabulate (shape b) (nd_get b)); [|by apply tabulate_nd_get].
  apply tabulate_ext. intros I HI. by rewrite bcast_index_id.
Qed.

Lemma broadcast_to_id' b sh : wf b → sh = shape b → np.broadcast_to b sh = Some b.
Proof. intros ? ->. by apply broadcast_to_id. Qed.
End broadcast.

Lemma foldl_replace_last (x c : Z) (l : list Z) :
  l ≠ [] → Forall (λ v, v = c) l → foldl (λ _ v, v) x l = c.
Proof.
  revert x. induction l as [|v l IH]; intros x Hne Hall; [done|].
  apply Forall_cons in Hall as [-> Hall]. simpl.
  destruct l as [|w l]; [done|]. by apply IH.
Qed.

Lemma hits_fmap_self (g : nat → Z) q pos : Forall (λ v, v = g q) (hits q pos (g <$> pos)).
Proof.
  induction pos as [|p pos IH]; [constructor|].
  rewrite fmap_cons, hits_cons. case_decide; [subst; by constructor|done].
Qed.

Lemma hits_elem q pos vals : length pos = length vals → q ∈ pos → hits q pos vals ≠ [].
Proof.
  revert vals. induction pos as [|p pos IH]; intros [|v vals] Hlen Hq; simplify_eq/=.
  - by apply elem_of_nil in Hq.
  - rewrite hits_cons. case_decide; [done|].
    apply elem_of_cons in Hq as [->|Hq]; [done|]. by apply IH.
Qed.

(** ** The [min] and [max] branches of [scatter_flat] *)




Lemma alloc_run a h : alloc a h = (h ++ [a], Return (length h)).
Proof. done. Qed.


(** ** The index tuple of [scatter_nd] *)

Lemma mapM_ext_in {A B} (f g : A → option B) (l : list A) :
  (∀ x, x ∈ l → f x = g x) → mapM f l = mapM g l.
Proof.
  induction l as [|x l IH]; intros H; [done|]. simpl.
  rewrite H by left. rewrite IH; [done|]. intros y Hy. apply H. by right.
Qed.

Section index_tuple.
Context (d : list Z) (n k : nat).
Hypothesis Hlen : length d = n * k.

Local Abbreviation A := (NDArray [n; k] d).

Lemma T_rows_lookup c j :
  c < k → j < n → data (np.T A) !! (c * n + j) = d !! (j * k + c).
Proof.
  intros Hc Hj. unfold np.T. simpl shape. change (reverse [n; k]) with [k; n].
  rewrite tabulate_lookup by (simpl; nia).
  assert (c * n + j = ravel [k; n] [c; j]) as -> by (simpl; lia).
  rewrite unravel_ravel by (repeat constructor; done).
  change (reverse [c; j]) with [j; c]. unfold nd_get. simpl.
  rewrite list_lookup_total_alt.
  replace (j * (k * 1) + (c * 1 + 0)) with (j * k + c) by lia.
  destruct (d !! (j * k + c)) eqn:E; [done|].
  apply lookup_ge_None in E. nia.
Qed.

Lemma index_tuple_cols_length : length (np.cols (np.index_tuple (np.T A))) = k.
Proof.
  unfold np.index_tuple, np.iter_first. cbn [np.cols].
  by rewrite length_fmap, length_seq.
Qed.

Lemma index_tuple_ishape : np.ishape (np.index_tuple (np.T A)) = [n].
Proof. done. Qed.

Lemma index_tuple_row j :
  j < n → np.index_row (np.cols (np.index_tuple (np.T A))) j = take k (drop (j * k) d).
Proof.
  intros Hj. apply list_eq. intros c.
  unfold np.index_row, np.index_tuple, np.iter_first. cbn [np.cols].
  change (shape (np.T A)) with [k; n]. cbn [hd tail numel foldr].
  rewrite <-list_fmap_compose, list_lookup_fmap.
  destruct (decide (c < k)) as [Hc|Hc].
  - rewrite lookup_seq_lt by done. simpl.
    rewrite lookup_take_lt, lookup_drop by done.
    rewrite list_lookup_total_alt, lookup_take_lt, lookup_drop by lia.
    replace (c * (n * 1) + j) with (c * n + j) by lia.
    rewrite T_rows_lookup by done.
    destruct (d !! (j * k + c)) eqn:E; [done|].
    apply lookup_ge_None in E. nia.
  - rewrite lookup_seq_ge by lia. simpl. symmetry.
    apply lookup_ge_None. rewrite length_take. lia.
Qed.

(** The offsets addressed by the index tuple that [scatter_nd] builds:
    the block that starts at the offset of each normalized row. *)
Lemma fancy_positions_nd sh rows :
  mapM (λ j, np.normalize_row sh (take k (drop (j * k) d))) (seq 0 n) = Some rows →
  np.fancy_positions sh (np.index_tuple (np.T A))
  = Some (concat ((λ r, np.block_positions (numel (drop k sh)) (ravel sh r)) <$> rows)).
Proof.
  intros Hrows. unfold np.fancy_positions.
  rewrite index_tuple_cols_length, index_tuple_ishape.
  cbn [numel foldr]. rewrite Nat.mul_1_r.
  rewrite (mapM_ext_in _ (λ j, np.normalize_row sh (take k (drop (j * k) d)))).
  - by rewrite Hrows.
  - intros j Hj. apply elem_of_seq in Hj. by rewrite index_tuple_row by lia.
Qed.
End index_tuple.

(** ** The branches of [scatter_nd] *)

Lemma bind_ret {A B} (a : A) (k : A → M B) h : bind (ret a) k h = k a h.
Proof. done. Qed.

Lemma bind_lift_Return {A B} (a : A) (k : A → M B) h : bind (lift (Return a)) k h = k a h.
Proof. done. Qed.

Lemma bind_eq {A B} (c : M A) (k : A → M B) h h' a :
  c h = (h', Return a) → bind c k h = k a h'.
Proof. intros E. unfold bind. by rewrite E. Qed.

Lemma reshape_rows_run indices k n :
  k ≠ 0 → length (data indices) = n * k →
  np.reshape_rows indices k = Return (NDArray [n; k] (data indices)).
Proof.
  intros Hk Hlen. unfold np.reshape_rows.
  rewrite decide_False by done. rewrite Hlen.
  rewrite decide_True by apply Nat.Div0.mod_mul.
  by rewrite Nat.div_mul.
Qed.

(** What [scatter_nd] does before it selects the reduction, when the
    target shape is given and there is no output buffer. *)
Lemma scatter_nd_fresh_unfold indices updates sh red k n h :
  last (shape indices) = Some k → k ≠ 0 → length (data indices) = n * k →
  scatter_nd indices updates (Some sh) red None h
  = (let ix := np.index_tuple (np.T (NDArray [n; k] (data indices))) in
     let* target :=
       if decide (red = "sum") then
         let* target := alloc (np.zeros sh) in
         np.add_at target ix updates ;; ret target
       else if decide (red = "replace") then
         let* target := alloc (np.zeros sh) in
         let* target := np.copy target in
         np.setitem target ix updates ;; ret target
       else if decide (red = "min") then
         let* target := alloc (np.mul_scalar (np.ones sh) sentinel) in
         np.minimum_at target ix updates ;;
         let* a := load target in alloc (np.where_eq a sentinel 0)
       else if decide (red = "max") then
         let* target := alloc (np.mul_scalar (np.ones sh) (- sentinel)) in
         np.maximum_at target ix updates ;;
         let* a := load target in alloc (np.where_eq a (- sentinel) 0)
       else raise (Exception (reduction_message red)) in
     ret target) h.
Proof.
  intros Hlast Hk Hlen. unfold scatter_nd. cbv beta iota zeta.
  rewrite !bind_ret, Hlast. cbn [or_raise].
  rewrite bind_lift_Return, (reshape_rows_run _ _ _ Hk Hlen), bind_lift_Return.
  reflexivity.
Qed.


(** ** Sentinels *)








(** ** Blocks of offsets and the [sum] branch *)


Section blocks.
Implicit Types (block base t : nat).

Lemma block_positions_length block base : length (np.block_positions block base) = block.
Proof. unfold np.block_positions. by rewrite length_fmap, length_seq. Qed.

Lemma block_positions_lookup block base t :
  t < block → np.block_positions block base !! t = Some (base + t).
Proof.
  intros Ht. unfold np.block_positions. by rewrite list_lookup_fmap, lookup_seq_lt.
Qed.


End blocks.





(** ** Coordinate rows *)

Section rows.

Lemma normalize_row_nonneg sh (r : list nat) :
  length r ≤ length sh → valid_index (take (length r) sh) r →
  np.normalize_row sh (Z.of_nat <$> r) = Some r.
Proof.
  unfold np.normalize_row. intros Hlen Hr. apply mapM_Some.
  revert r Hlen Hr. induction sh as [|d sh IH]; intros [|i r] Hlen Hr;
    simpl in *; try lia; try constructor.
  - apply Forall2_cons in Hr as [Hi Hr]. by apply normalize_index_nonneg.
  - apply Forall2_cons in Hr as [Hi Hr]. apply IH; [lia|done].
Qed.

(** The block a row of [k] valid coordinates selects lies inside the array. *)
Lemma ravel_leading sh k r :
  valid_index (take k sh) r →
  ravel sh r = ravel (take k sh) r * numel (drop k sh) ∧
  ravel sh r + numel (drop k sh) ≤ numel sh.
Proof.
  intros Hr. pose proof (valid_index_length _ _ Hr) as Hlen.
  pose proof (ravel_lt _ _ Hr) as Hlt.
  assert (ravel sh r = ravel (take k sh) r * numel (drop k sh)) as E1.
  { rewrite <-(take_drop k sh) at 1. by apply ravel_prefix. }
  assert (numel sh = numel (take k sh) * numel (drop k sh)) as E2.
  { by rewrite <-numel_app, take_drop. }
  split; [done|]. nia.
Qed.
End rows.





(** ** [gather] and the [replace] branch of [scatter_flat] *)

Lemma squeeze_leading_id b rank : length (shape b) ≤ rank → np.squeeze_leading b rank = b.
Proof.
  intros Hle. unfold np.squeeze_leading.
  replace (length (shape b) - rank) with 0 by lia. by destruct b.
Qed.

Lemma setitem_run h l a ix b pos vals :
  h !! l = Some a →
  length (np.cols ix) ≤ length (shape a) →
  np.fancy_positions (shape a) ix = Some pos →
  np.broadcast_to
    (np.squeeze_leading b (length (np.ishape ix) + (length (shape a) - length (np.cols ix))))
    (np.ishape ix ++ drop (length (np.cols ix)) (shape a)) = Some vals →
  np.setitem l ix b h
  = (<[l := NDArray (shape a) (np.scatter_with (λ _ v, v) (data a) pos (data vals))]> h,
     Return tt).
Proof.
  intros Hl Hk Hpos Hvals. unfold np.setitem.
  rewrite (bind_eq _ _ _ _ _ (load_run _ _ _ Hl)). unfold bind, lift.
  by rewrite (indexed_update_run _ _ _ _ _ _ Hk Hpos Hvals).
Qed.

Lemma copy_run h l a : h !! l = Some a → np.copy l h = (h ++ [a], Return (length h)).
Proof. intros Hl. unfold np.copy. by rewrite (bind_eq _ _ _ _ _ (load_run _ _ _ Hl)). Qed.

(** The [replace] branch of [scatter_flat] without an output buffer. *)
Lemma scatter_flat_replace_fresh indices updates size pos vals h :
  np.fancy_positions [size] (np.index_array indices) = Some pos →
  np.broadcast_to (np.squeeze_leading updates (length (shape indices) + 0))
                  (shape indices ++ []) = Some vals →
  scatter_flat indices updates (Some size) "replace" None h
  = (h ++ [np.zeros [size];
           NDArray [size] (np.scatter_with (λ _ v, v) (replicate size 0%Z) pos (data vals))],
     Return (S (length h))).
Proof.
  intros Hpos Hvals. unfold scatter_flat. cbv beta iota zeta.
  rewrite bind_ret, decide_False, decide_True by done.
  cbn [fmap option_fmap option_map new_filled].
  rewrite (bind_eq _ _ _ _ _ (alloc_run _ _)).
  rewrite (bind_eq _ _ _ _ _ (copy_run _ _ _ (lookup_new _ _))).
  pose proof (setitem_run ((h ++ [np.zeros [size]]) ++ [np.zeros [size]])
    (length (h ++ [np.zeros [size]])) _
    (np.index_array indices) updates pos vals (lookup_new _ _) ltac:(simpl; lia) Hpos Hvals)
    as Hrun.
  rewrite insert_new in Hrun.
  rewrite (bind_eq _ _ _ _ _ Hrun). unfold ivy._to_device, ret.
  rewrite length_app, Nat.add_comm, <-(assoc_L (++)). simpl. by rewrite Nat.mul_1_r.
Qed.

(** [take_along_axis] on one-dimensional arrays reads [params] at the
    normalized indices. *)
Lemma take_along_1d params idx pos :
  mapM (np.normalize_index (length params)) idx = Some pos →
  np.take_along (vector params) (vector idx) 0
  = Return (NDArray [length idx] ((params !!!.) <$> pos)).
Proof.
  intros Hpos. unfold np.take_along. rewrite decide_True by done.
  change (np.along_shape 0 (shape (vector params)) (shape (vector idx)))
    with (Some [length idx]). cbn [or_raise obind].
  match goal with
  | |- context [mapM ?f ?l] => assert (mapM f l = Some ((params !!!.) <$> pos)) as ->; [|done]
  end.
  apply mapM_Some in Hpos. pose proof (Forall2_length _ _ _ Hpos) as Hlen.
  apply mapM_Some. apply Forall2_same_length_lookup_2.
  { rewrite length_seq, length_fmap. simpl. lia. }
  intros j x v Hj Hv. apply lookup_seq in Hj as [-> Hj]. simpl in Hj.
  rewrite list_lookup_fmap in Hv.
  destruct (pos !! j) as [p|] eqn:Ep; simplify_eq/=.
  destruct (idx !! j) as [z|] eqn:Ez; [|apply lookup_ge_None in Ez; lia].
  pose proof (Forall2_lookup_lr _ _ _ _ _ _ Hpos Ez Ep) as Hn.
  change (Nat.divmod j 0 0 0).1 with (j / 1). rewrite Nat.div_1_r.
  assert (nd_get (vector idx) [if decide (length idx = 1) then 0 else j] = z) as ->.
  { unfold nd_get. simpl. case_decide as Hone.
    - assert (j = 0) as -> by lia. simpl. by rewrite (list_lookup_total_correct _ _ _ Ez).
    - replace (j * 1 + 0) with j by lia. by rewrite (list_lookup_total_correct _ _ _ Ez). }
  rewrite Hn. simpl. f_equal. unfold nd_get. simpl. f_equal. lia.
Qed.

Lemma gather_1d params idx pos axis h :
  axis = None ∨ axis = Some 0%Z ∨ axis = Some (-1)%Z →
  mapM (np.normalize_index (length params)) idx = Some pos →
  gather (vector params) (vector idx) axis None h
  = (h ++ [NDArray [length idx] ((params !!!.) <$> pos)], Return (length h)).
Proof.
  intros Hax Hpos. unfold gather.
  assert (np.take_along_axis (vector params) (vector idx) axis
          = Return (NDArray [length idx] ((params !!!.) <$> pos))) as ->.
  { destruct Hax as [->|[->| ->]]; simpl; by apply take_along_1d. }
  by rewrite bind_lift_Return.
Qed.

(** C8.  For a one-dimensional [params] and indices in range, [gather]
    followed by [scatter_flat] with reduction "replace", the same indices
    and size [len(params)], gives a buffer that holds at every index
    position the value of [params] there (and 0 elsewhere). *)
Theorem gather_then_scatter_flat_replace
    (params idx : list Z) (pos : list nat) (axis : option Z) (h : heap) :
  axis = None ∨ axis = Some 0%Z ∨ axis = Some (-1)%Z →
  mapM (np.normalize_index (length params)) idx = Some pos →
  ∃ g z r,
    gather (vector params) (vector idx) axis None h = (h ++ [g], Return (length h)) ∧
    g = NDArray [length idx] ((params !!!.) <$> pos) ∧
    scatter_flat (vector idx) g (Some (length params)) "replace" None (h ++ [g])
      = (h ++ [g; z; r], Return (length h + 2)) ∧
    shape r = [length params] ∧
    (∀ p, p ∈ pos → data r !! p = params !! p) ∧
    (∀ q, q < length params → q ∉ pos → data r !! q = Some 0%Z).
Proof.
  intros Hax Hpos.
  pose proof (Forall2_length _ _ _ (proj1 (mapM_Some _ _ _) Hpos)) as Hlen.
  set (g := NDArray [length idx] ((params !!!.) <$> pos)).
  exists g, (np.zeros [length params]),
    (NDArray [length params]
       (np.scatter_with (λ _ v, v) (replicate (length params) 0%Z) pos (data g))).
  split; [by apply gather_1d|]. split; [done|]. split; [|split; [done|split]].
  - rewrite (scatter_flat_replace_fresh _ _ _ pos g).
    + rewrite length_app, <-(assoc_L (++)). simpl. repeat f_equal. lia.
    + by apply fancy_positions_flat.
    + rewrite squeeze_leading_id by (simpl; lia).
      apply broadcast_to_id'; [|by rewrite app_nil_r].
      unfold wf. simpl. rewrite length_fmap. lia.
  - intros p Hp. simpl. rewrite scatter_with_lookup.
    assert (p < length params) as Hlt.
    { apply list_elem_of_lookup in Hp as [j Hj].
      apply mapM_Some in Hpos.
      destruct (Forall2_lookup_r _ _ _ _ _ Hpos Hj) as (z & _ & Hz).
      by eapply normalize_index_lt. }
    rewrite lookup_replicate_2 by done. simpl.
    rewrite (foldl_replace_last _ (params !!! p)).
    + symmetry. by apply list_lookup_lookup_total_lt.
    + apply hits_elem; [by rewrite length_fmap|done].
    + apply (hits_fmap_self (λ q, params !!! q)).
  - intros q Hq Hnot. simpl. rewrite scatter_with_lookup.
    rewrite lookup_replicate_2 by done. simpl. by rewrite hits_not_elem.
Qed.

Lemma gather_then_scatter_flat_replace_witness :
  ∃ g z r,
    gather (vector [10; 20; 30]%Z) (vector [2; 0]%Z) (Some (-1)%Z) None [] = ([g], Return 0) ∧
    g = NDArray [2] [30; 10]%Z ∧
    scatter_flat (vector [2; 0]%Z) g (Some 3) "replace" None [g] = ([g; z; r], Return 2) ∧
    shape r = [3] ∧
    data r !! 2 = Some 30%Z ∧
    data r !! 0 = Some 10%Z ∧
    data r !! 1 = Some 0%Z.
Proof.
  destruct (gather_then_scatter_flat_replace [10; 20; 30]%Z [2; 0]%Z [2; 0] (Some (-1)%Z) []
              (or_intror (or_intror eq_refl)) eq_refl)
    as (g & z & r & Hg & Eg & Hs & Hshape & Hsel & Hrest).
  exists g, z, r. split; [exact Hg|]. split; [exact Eg|]. split; [exact Hs|].
  split; [exact Hshape|]. split; [|split].
  - apply (Hsel 2). apply list_elem_of_here.
  - apply (Hsel 0). apply list_elem_of_further, list_elem_of_here.
  - apply (Hrest 1); [simpl; lia|].
    intros Hin. apply elem_of_cons in Hin as [Hin|Hin]; [discriminate|].
    apply elem_of_cons in Hin as [Hin|Hin]; [discriminate|]. by apply elem_of_nil in Hin.
Defined.

(** ** Strides *)

Section strides.
Implicit Types (sh : list nat).

Lemma foldl_mul_numel sh : foldl Nat.mul 1 sh = numel sh.
Proof.
  assert (∀ a, foldl Nat.mul a sh = a * numel sh) as H.
  { induction sh as [|d sh IH]; intros a; simpl; [lia|]. rewrite IH. lia. }
  rewrite H. lia.
Qed.

Lemma strides_of_length sh : sh ≠ [] → length (strides_of sh) = length sh.
Proof.
  intros Hne. unfold strides_of. rewrite length_app, length_fmap, length_seq. simpl.
  destruct sh; [done|]. simpl. lia.
Qed.

Lemma strides_of_lookup sh i :
  i < length sh → strides_of sh !! i = Some (numel (drop (S i) sh)).
Proof.
  intros Hi. unfold strides_of.
  destruct (decide (i < length sh - 1)) as [Hlt|Hge].
  - rewrite lookup_app_l by (rewrite length_fmap, length_seq; lia).
    rewrite list_lookup_fmap, lookup_seq_lt by done. simpl.
    by rewrite foldl_mul_numel, Nat.add_1_r.
  - rewrite lookup_app_r by (rewrite length_fmap, length_seq; lia).
    rewrite length_fmap, length_seq.
    replace (i - (length sh - 1)) with 0 by lia. simpl.
    rewrite drop_ge by lia. done.
Qed.

(** Weighting the coordinates of a row by the strides gives its offset. *)
Lemma weighted_sum_ravel sh (r : list nat) :
  length r ≤ length sh →
  np.Zsum (zip_with Z.mul (Z.of_nat <$> r) (Z.of_nat <$> take (length r) (strides_of sh)))
  = Z.of_nat (ravel sh r).
Proof.
  intros Hlen.
  unfold np.Zsum.
  assert (∀ (ss : list nat),
            length r ≤ length sh →
            (∀ i, i < length r → ss !! i = Some (numel (drop (S i) sh))) →
            foldr Z.add 0%Z (zip_with Z.mul (Z.of_nat <$> r) (Z.of_nat <$> ss))
            = Z.of_nat (ravel sh r)) as H.
  { clear. revert sh. induction r as [|c r IH]; intros sh ss Hlen Hss.
    - simpl. by rewrite ravel_nil_r.
    - destruct ss as [|s ss]; [specialize (Hss 0 ltac:(simpl; lia)); done|].
      pose proof (Hss 0 ltac:(simpl; lia)) as H0. simpl in H0. simplify_eq.
      destruct sh as [|d sh]; [simpl in Hlen; lia|].
      csimpl. rewrite drop_0. rewrite (IH sh ss).
      + lia.
      + simpl in Hlen. lia.
      + intros i Hi. by specialize (Hss (S i) ltac:(simpl; lia)). }
  apply H; [done|]. intros i Hi. rewrite lookup_take_lt by done.
  apply strides_of_lookup. lia.
Qed.
End strides.

Lemma unravel_app s t p :
  p < numel (s ++ t) →
  unravel (s ++ t) p = unravel s (p / numel t) ++ unravel t (p mod numel t).
Proof.
  revert p. induction s as [|d s IH]; intros p Hp.
  - simpl in *. rewrite Nat.mod_small by lia. done.
  - change ((d :: s) ++ t) with (d :: (s ++ t)) in *. rewrite numel_cons in Hp.
    cbn [unravel app]. rewrite numel_app in *.
    assert (numel s ≠ 0 ∧ numel t ≠ 0) as [Hs Ht] by (split; intros E; rewrite E in Hp; lia).
    rewrite IH by (apply Nat.mod_upper_bound; lia).
    f_equal.
    + rewrite Nat.Div0.div_div. f_equal. lia.
    + f_equal.
      * f_equal. rewrite (Nat.mul_comm (numel s)), Nat.Div0.mod_mul_r.
        rewrite Nat.mul_comm, Nat.div_add by done.
        rewrite (Nat.div_small (p mod numel t)) by (by apply Nat.mod_upper_bound). lia.
      * f_equal. rewrite (Nat.mul_comm (numel s)), Nat.Div0.mod_mul_r.
        rewrite Nat.mul_comm, Nat.Div0.mod_add. by rewrite Nat.Div0.mod_mod.
Qed.

Lemma wrap32_small z : (0 ≤ z < 2 ^ 31)%Z → np.wrap32 z = z.
Proof. intros Hz. unfold np.wrap32. rewrite Z.mod_small by lia. lia. Qed.

(** Selecting a sub-array axis by axis is reading one block of the
    row-major data. *)
Lemma subarray_data_block sh d coords :
  length d = numel sh →
  valid_index (take (length coords) sh) coords →
  subarray_data sh d coords
  = take (numel (drop (length coords) sh)) (drop (ravel sh coords) d).
Proof.
  revert sh d. induction coords as [|c cs IH]; intros sh d Hd Hv.
  - cbn [length]. rewrite ravel_nil_r, !drop_0, take_ge by lia. by destruct sh.
  - destruct sh as [|m sh]; simpl in Hv; [by apply Forall2_nil_inv_r in Hv|].
    apply Forall2_cons in Hv as [Hc Hv]. simpl in Hd.
    destruct (ravel_leading sh (length cs) cs Hv) as [_ Hbound].
    simpl. rewrite IH; [|rewrite length_take, length_drop; nia|done].
    rewrite take_drop_commute, take_take, Nat.min_l by lia.
    rewrite <-take_drop_commute, drop_drop. done.
Qed.

(** ** Index tensors of natural coordinates *)

Lemma concat_mjoin {A} (ls : list (list A)) : concat ls = mjoin ls.
Proof. induction ls as [|l ls IH]; [done|]. simpl. by rewrite IH. Qed.

Lemma numel_ones m k : numel (replicate m 1 ++ [k]) = k.
Proof. induction m as [|m IH]; simpl in *; lia. Qed.

Lemma last_app_removelast {A} (l : list A) x : last l = Some x → l = removelast l ++ [x].
Proof.
  intros H. destruct (decide (l = [])) as [->|Hne]; [done|].
  rewrite (app_removelast_last x Hne) at 1. f_equal. f_equal.
  revert H. clear. induction l as [|y [|z l] IH]; intros H; simplify_eq/=; [done|].
  by apply IH.
Qed.

Section index_data.
Context (k : nat) (rows : list (list nat)).
Hypothesis Hrows : Forall (λ r, length r = k) rows.

Local Abbreviation d := (coords_data rows).

Lemma index_data_length : length d = length rows * k.
Proof.
  unfold coords_data. rewrite concat_mjoin, length_join, <-list_fmap_compose.
  apply sum_list_fmap_same. eapply Forall_impl; [exact Hrows|].
  intros r Hr. simpl. by rewrite length_fmap.
Qed.

Lemma index_data_row j r :
  rows !! j = Some r → take k (drop (j * k) d) = Z.of_nat <$> r.
Proof.
  intros Hj. apply list_eq. intros c.
  pose proof (Forall_lookup_1 _ _ _ _ Hrows Hj) as Hlen. simpl in Hlen.
  destruct (decide (c < k)) as [Hc|Hc].
  - rewrite lookup_take_lt, lookup_drop by done.
    destruct (lookup_lt_is_Some_2 r c ltac:(lia)) as [x Ex].
    rewrite list_lookup_fmap, Ex. simpl.
    unfold coords_data. rewrite concat_mjoin.
    apply (join_lookup_Some_same_length' k); [|done|].
    + apply Forall_fmap. eapply Forall_impl; [exact Hrows|].
      intros r' Hr'. simpl. by rewrite length_fmap.
    + exists (Z.of_nat <$> r). rewrite !list_lookup_fmap, Hj, Ex. done.
  - rewrite lookup_take_ge by lia. symmetry. apply lookup_ge_None.
    rewrite length_fmap. lia.
Qed.
End index_data.

(** ** The run of [gather_nd] *)

Lemma ravel_ones_zeros m : ravel (replicate m 1) (replicate m 0) = 0.
Proof. induction m as [|m IH]; simpl; [done|]. by rewrite IH. Qed.

Lemma bcast_ones m (I : list nat) :
  length I = m →
  zip_with (λ s i, if decide (s = 1) then 0 else i) (replicate m 1) I = replicate m 0.
Proof.
  revert I. induction m as [|m IH]; intros [|i I] Hlen; simplify_eq/=; [done|].
  by rewrite IH.
Qed.

Lemma unravel_1d k p : unravel [k] p = [p].
Proof. cbn [unravel numel foldr]. by rewrite Nat.div_1_r. Qed.

Lemma unravel_2d a b p : unravel [a; b] p = [p / b; p mod b].
Proof. cbn [unravel numel foldr]. by rewrite Nat.mul_1_r, Nat.div_1_r. Qed.

Lemma tabulate_2d_data a b f :
  data (tabulate [a; b] f) = (λ p, f [p / b; p mod b]) <$> seq 0 (a * b).
Proof.
  unfold tabulate. cbn [data numel foldr]. rewrite Nat.mul_1_r.
  apply list_fmap_ext. intros _ p _. by rewrite unravel_2d.
Qed.

Lemma pad_left_same n l : length l = n → np.pad_left n l = l.
Proof. intros <-. unfold np.pad_left. by rewrite Nat.sub_diag. Qed.

Lemma broadcast_shapes_ones b k :
  np.broadcast_shapes (b ++ [k]) (replicate (length b) 1 ++ [k]) = Some (b ++ [k]).
Proof.
  unfold np.broadcast_shapes.
  rewrite !length_app, length_replicate, Nat.max_id.
  rewrite !pad_left_same by (rewrite length_app, ?length_replicate; done).
  apply mapM_Some. induction b as [|x b IH]; simpl.
  - constructor; [|constructor]. simpl. by rewrite decide_True.
  - constructor; [|done]. simpl. repeat case_decide; simplify_eq; done.
Qed.

Lemma broadcastable_ones b k : np.broadcastable (replicate (length b) 1 ++ [k]) (b ++ [k]) = true.
Proof.
  unfold np.broadcastable. rewrite !length_app, length_replicate, Nat.sub_diag, drop_0.
  rewrite bool_decide_eq_true_2 by done. apply bool_decide_eq_true_2.
  apply Forall2_app; [|by repeat constructor].
  induction b; constructor; auto.
Qed.

Lemma zip_with_fmap_same {A B C D} (f : B → C → D) (g : A → B) (h : A → C) (l : list A) :
  zip_with f (g <$> l) (h <$> l) = (λ x, f (g x) (h x)) <$> l.
Proof. induction l as [|x l IH]; csimpl; [done|]. by rewrite IH. Qed.

Lemma broadcast_shapes_same s : np.broadcast_shapes s s = Some s.
Proof.
  unfold np.broadcast_shapes. rewrite Nat.max_id, pad_left_same by done.
  apply mapM_Some. induction s as [|x s IH]; simpl; constructor; [|done].
  simpl. by rewrite decide_True.
Qed.

Lemma add_same_shape sh da db :
  length da = numel sh → length db = numel sh →
  np.add (NDArray sh da) (NDArray sh db) = Return (NDArray sh (zip_with Z.add da db)).
Proof.
  intros Ha Hb. unfold np.add, np.binop. cbn [shape].
  rewrite broadcast_shapes_same. cbn [or_raise obind].
  rewrite (broadcast_to_id' (NDArray sh da)), (broadcast_to_id' (NDArray sh db)) by done.
  done.
Qed.

(** A column of [n] values repeated along a second axis of length [m]. *)
Lemma tile_column n m (col : list Z) :
  length col = n →
  np.tile (NDArray [n; 1] col) [1; m]
  = NDArray [n; m] ((λ p, col !!! (p / m)) <$> seq 0 (n * m)).
Proof.
  intros Hcol. unfold np.tile. cbn [shape data length Nat.max].
  change (np.pad_left 2 [n; 1]) with [n; 1]. change (np.pad_left 2 [1; m]) with [1; m].
  cbn [zip_with]. rewrite Nat.mul_1_r, Nat.mul_1_l.
  unfold tabulate. f_equal. cbn [numel foldr]. rewrite Nat.mul_1_r.
  apply list_fmap_ext. intros i p Hp. apply lookup_seq in Hp as [-> Hp]. rewrite Nat.add_0_l.
  rewrite unravel_2d. cbn [zip_with ravel numel foldr].
  assert (m ≠ 0) by (intros ->; lia).
  assert (i / m < n) by (apply Nat.Div0.div_lt_upper_bound; lia).
  rewrite Nat.mod_1_r, (Nat.mod_small (i / m)) by done. f_equal. lia.
Qed.

(** A row of [m] values repeated along a first axis of length [n]. *)
Lemma tile_row n m (row : list Z) :
  length row = m →
  np.tile (NDArray [1; m] row) [n; 1]
  = NDArray [n; m] ((λ p, row !!! (p mod m)) <$> seq 0 (n * m)).
Proof.
  intros Hrow. unfold np.tile. cbn [shape data length Nat.max].
  change (np.pad_left 2 [1; m]) with [1; m]. change (np.pad_left 2 [n; 1]) with [n; 1].
  cbn [zip_with]. rewrite Nat.mul_1_r, Nat.mul_1_l.
  unfold tabulate. f_equal. cbn [numel foldr]. rewrite Nat.mul_1_r.
  apply list_fmap_ext. intros i p Hp. apply lookup_seq in Hp as [-> Hp]. rewrite Nat.add_0_l.
  rewrite unravel_2d. cbn [zip_with ravel numel foldr].
  rewrite Nat.mod_1_r, Nat.Div0.mod_mod. f_equal. lia.
Qed.

Section gather_nd_run.
Context (params indices : ndarray) (k n : nat) (rows : list (list nat)).
Local Abbreviation batch := (index_batch indices).
Local Abbreviation block := (gather_block params k).
Local Abbreviation scales := (gather_scales params k).
Local Abbreviation SC := (scale_cycle params k n).
Local Abbreviation bases := (row_bases params rows).
Local Abbreviation F := (flat_offsets params k n rows).
Local Abbreviation G := (gathered params k n rows).

Hypothesis Hlast : last (shape indices) = Some k.
Hypothesis Hk : 0 < k ≤ length (shape params).
Hypothesis Hn : numel (removelast (shape indices)) = n.
Hypothesis Hlen : length rows = n.
Hypothesis Hvalid : Forall (valid_index (take k (shape params))) rows.
Hypothesis Hdata : data indices = coords_data rows.

Local Lemma rows_length : Forall (λ r, length r = k) rows.
Proof using All.
  eapply Forall_impl; [exact Hvalid|]. intros r Hr. simpl.
  rewrite (valid_index_length _ _ Hr), length_take. lia.
Qed.

Local Lemma ish_split : shape indices = batch ++ [k].
Proof using All. by apply last_app_removelast. Qed.

Local Lemma indices_len : length (data indices) = n * k.
Proof using All.
  rewrite Hdata, (index_data_length k) by apply rows_length. by rewrite Hlen.
Qed.

Local Lemma indices_wf : wf indices.
Proof using All.
  unfold wf. rewrite indices_len, ish_split, numel_app. unfold index_batch. rewrite Hn.
  simpl. lia.
Qed.

Local Lemma strides_len : length (strides_of (shape params)) = length (shape params).
Proof using All. apply strides_of_length. intros E. rewrite E in Hk. simpl in Hk. lia. Qed.

Local Lemma scales_len : length scales = k.
Proof using All. unfold gather_scales. rewrite length_fmap, length_take, strides_len. lia. Qed.

Lemma gather_nd_factor :
  (let? f := np.item (np.array (strides_of (shape params))) (Z.of_nat k - 1) in
   Return (Z.to_nat f)) = Return block.
Proof using All.
  unfold np.item, np.array. cbn [data]. rewrite length_fmap, strides_len.
  assert (np.normalize_index (length (shape params)) (Z.of_nat k - 1) = Some (k - 1)) as ->.
  { replace (Z.of_nat k - 1)%Z with (Z.of_nat (k - 1)) by lia.
    apply normalize_index_nonneg. lia. }
  cbn [mbind option_bind]. rewrite list_lookup_fmap, strides_of_lookup by lia.
  replace (S (k - 1)) with k by lia. simpl. by rewrite Nat2Z.id.
Qed.

Lemma gather_nd_scales :
  np.reshape (np.array (take k (strides_of (shape params))))
             (replicate (length (shape indices) - 1) 1 ++ [k])
  = Return (NDArray (replicate (length batch) 1 ++ [k]) scales).
Proof using All.
  unfold np.reshape, np.array. cbn [data]. rewrite numel_ones.
  fold (gather_scales params k). rewrite scales_len, decide_True by done.
  rewrite ish_split, length_app. simpl. by rewrite Nat.add_sub.
Qed.

Lemma gather_nd_scaled :
  np.multiply indices (NDArray (replicate (length batch) 1 ++ [k]) scales)
  = Return (NDArray (shape indices) (zip_with Z.mul (data indices) SC)).
Proof using All.
  unfold np.multiply, np.binop. cbn [shape].
  rewrite ish_split at 1. rewrite broadcast_shapes_ones, <-ish_split. cbn [or_raise obind].
  rewrite (broadcast_to_id _ indices_wf). cbn [or_raise obind].
  unfold np.broadcast_to. cbn [shape].
  rewrite ish_split at 1. rewrite broadcastable_ones. cbn [or_raise obind data].
  f_equal. f_equal. f_equal.
  unfold tabulate, scale_cycle. cbn [data].
  assert (numel (shape indices) = n * k) as ->.
  { rewrite <-indices_len. symmetry. apply indices_wf. }
  apply list_fmap_ext. intros p ? Hp. apply lookup_seq in Hp as [-> Hp].
  rewrite Nat.add_0_l.
  assert (length (shape indices) - length (replicate (length batch) 1 ++ [k]) = 0) as ->.
  { rewrite ish_split, !length_app, length_replicate. lia. }
  rewrite ish_split, unravel_app by (rewrite numel_app; unfold index_batch; rewrite Hn; simpl; lia).
  rewrite unravel_1d. unfold np.bcast_index. rewrite drop_0.
  rewrite zip_with_app by (by rewrite length_replicate, unravel_length).
  rewrite bcast_ones by apply unravel_length.
  unfold nd_get. cbn [shape data zip_with].
  rewrite ravel_app by (by rewrite !length_replicate).
  rewrite ravel_ones_zeros. cbn [numel foldr]. rewrite Nat.mul_1_r. f_equal.
  case_decide as Hone; simpl.
  - subst k. rewrite Nat.mod_1_r. done.
  - lia.
Qed.

Local Lemma SC_row j : j < n → take k (drop (j * k) SC) = scales.
Proof using All.
  intros Hj. apply list_eq. intros c. destruct (decide (c < k)) as [Hc|Hc].
  - rewrite lookup_take_lt, lookup_drop by done. unfold scale_cycle.
    rewrite list_lookup_fmap, lookup_seq_lt by nia. simpl.
    rewrite Nat.add_comm, Nat.Div0.mod_add, Nat.mod_small by done.
    symmetry. apply list_lookup_lookup_total_lt. by rewrite scales_len.
  - rewrite lookup_take_ge by lia. symmetry. apply lookup_ge_None.
    rewrite scales_len. lia.
Qed.

Lemma gather_nd_summed :
  np.sum_last_keepdims (NDArray (shape indices) (zip_with Z.mul (data indices) SC))
  = Return (NDArray (batch ++ [1]) bases).
Proof using All.
  unfold np.sum_last_keepdims. cbn [shape data]. rewrite Hlast.
  f_equal. f_equal. fold (index_batch indices). unfold index_batch at 1. rewrite Hn.
  apply list_eq. intros j. unfold row_bases. rewrite !list_lookup_fmap.
  destruct (decide (j < n)) as [Hj|Hj].
  - rewrite lookup_seq_lt by done.
    destruct (lookup_lt_is_Some_2 rows j ltac:(lia)) as [r Er].
    rewrite Er. simpl. f_equal.
    rewrite zip_with_drop, zip_with_take.
    rewrite Hdata, (index_data_row k rows rows_length j r Er), (SC_row j Hj).
    pose proof (Forall_lookup_1 _ _ _ _ rows_length Er) as Hr. simpl in Hr.
    unfold gather_scales. rewrite <-Hr. apply weighted_sum_ravel. lia.
  - rewrite lookup_seq_ge by lia. rewrite lookup_ge_None_2 by lia. done.
Qed.

Lemma gather_nd_column :
  np.reshape_rows (NDArray (batch ++ [1]) bases) 1 = Return (NDArray [n; 1] bases).
Proof using All.
  apply reshape_rows_run; [done|]. unfold row_bases. simpl. rewrite length_fmap. lia.
Qed.

Lemma gather_nd_indices_for_flat :
  let tiled := np.tile (NDArray [n; 1] bases) [1; block] in
  np.add tiled
    (np.tile (np.expand_dims0 (np.arange block)) [hd 0 (shape tiled); 1])
  = Return (NDArray [n; block] F).
Proof using All.
  assert (length bases = n) as Hb by (unfold row_bases; by rewrite length_fmap).
  cbv zeta. rewrite (tile_column n block bases Hb). cbn [shape hd].
  unfold np.expand_dims0, np.arange. cbn [shape data].
  rewrite (tile_row n block) by (by rewrite length_fmap, length_seq).
  rewrite add_same_shape by (rewrite length_fmap, length_seq; simpl; lia).
  f_equal. f_equal. rewrite zip_with_fmap_same. unfold flat_offsets.
  apply list_fmap_ext. intros i p Hp. apply lookup_seq in Hp as [-> Hp]. rewrite Nat.add_0_l.
  f_equal. assert (block ≠ 0) by (intros E; rewrite E in Hp; lia).
  rewrite list_lookup_total_alt, list_lookup_fmap, lookup_seq_lt
    by (by apply Nat.mod_upper_bound).
  done.
Qed.

Hypothesis Hwf : wf params.
Hypothesis Hsmall : (Z.of_nat (numel (shape params)) < 2 ^ 31)%Z.

Local Lemma row_bound j r :
  rows !! j = Some r → ravel (shape params) r + block ≤ numel (shape params).
Proof using All.
  intros Hr. pose proof (Forall_lookup_1 _ _ _ _ Hvalid Hr) as Hv. simpl in Hv.
  by destruct (ravel_leading _ _ _ Hv).
Qed.

Lemma gather_nd_flat_gather :
  np.take_flat (np.ravel_array params)
               (np.astype_int32 (np.ravel_array (NDArray [n; block] F)))
  = Return (NDArray [length F] G).
Proof using All.
  unfold np.take_flat, np.astype_int32, np.ravel_array, np.take_elems. cbn [shape data].
  match goal with
  | |- context [mapM ?f ?l] => assert (mapM f l = Some G) as ->; [|done]
  end.
  apply mapM_Some. apply Forall2_same_length_lookup_2.
  { unfold flat_offsets, gathered. by rewrite !length_fmap. }
  intros p z v Hz Hv. unfold flat_offsets, gathered in Hz, Hv.
  rewrite !list_lookup_fmap in Hz. rewrite list_lookup_fmap in Hv.
  destruct (seq 0 (n * block) !! p) as [q|] eqn:Eq; [|by simpl in Hz].
  simpl in Hz, Hv. injection Hz as <-. injection Hv as <-.
  apply lookup_seq in Eq as [-> Hp]. rewrite Nat.add_0_l.
  assert (block ≠ 0) as Hb by (intros E; rewrite E in Hp; lia).
  assert (p / block < n) as Hj by (apply Nat.Div0.div_lt_upper_bound; lia).
  destruct (lookup_lt_is_Some_2 rows (p / block) ltac:(lia)) as [r Er].
  pose proof (row_bound _ _ Er) as Hbound.
  pose proof (Nat.mod_upper_bound p block Hb) as Ht.
  rewrite (list_lookup_total_correct _ _ _ Er).
  unfold row_bases. rewrite list_lookup_total_alt, list_lookup_fmap, Er. simpl.
  rewrite <-Nat2Z.inj_add, wrap32_small by lia.
  rewrite normalize_index_nonneg by (rewrite Hwf; lia). simpl.
  apply list_lookup_lookup_total_lt. rewrite Hwf. lia.
Qed.

Lemma gather_nd_run out h :
  gather_nd params indices out h
  = (h ++ [NDArray (batch ++ drop k (shape params)) G], Return (length h)).
Proof using All.
  unfold gather_nd. cbv zeta. rewrite Hlast. cbn [or_raise].
  rewrite bind_lift_Return. fold (strides_of (shape params)).
  rewrite gather_nd_factor, bind_lift_Return.
  rewrite gather_nd_scales, bind_lift_Return.
  rewrite gather_nd_scaled, bind_lift_Return.
  rewrite gather_nd_summed, bind_lift_Return.
  rewrite gather_nd_column, bind_lift_Return.
  pose proof gather_nd_indices_for_flat as Hadd. cbv zeta in Hadd.
  fold (gather_block params k). rewrite Hadd, bind_lift_Return.
  rewrite gather_nd_flat_gather, bind_lift_Return.
  unfold np.reshape. cbn [data]. rewrite decide_True.
  - by rewrite bind_lift_Return.
  - rewrite numel_app. unfold index_batch. rewrite Hn. fold (gather_block params k).
    unfold gathered. by rewrite length_fmap, length_seq.
Qed.

Lemma gather_nd_block j r :
  rows !! j = Some r →
  take block (drop (j * block) G) = subarray_data (shape params) (data params) r.
Proof using All.
  intros Er. pose proof (row_bound _ _ Er) as Hbound.
  pose proof (lookup_lt_Some _ _ _ Er) as Hj.
  pose proof (Forall_lookup_1 _ _ _ _ Hvalid Er) as Hv. simpl in Hv.
  pose proof (Forall_lookup_1 _ _ _ _ rows_length Er) as Hr. simpl in Hr.
  rewrite subarray_data_block by (rewrite ?Hr; done). rewrite Hr. fold (gather_block params k).
  apply list_eq. intros t. destruct (decide (t < block)) as [Ht|Ht].
  - rewrite !lookup_take_lt, !lookup_drop by done. unfold gathered.
    rewrite list_lookup_fmap, lookup_seq_lt by nia. simpl.
    rewrite (Nat.add_comm (j * block)), Nat.div_add, Nat.Div0.mod_add by lia.
    rewrite Nat.div_small, Nat.mod_small by done. simpl.
    rewrite (list_lookup_total_correct _ _ _ Er).
    symmetry. apply list_lookup_lookup_total_lt. rewrite Hwf. lia.
  - by rewrite !lookup_take_ge by lia.
Qed.
End gather_nd_run.

(** ** [gather_nd] *)

(** C7, as amended.  For [params] of fewer than 2^31 elements and an
    index tensor whose last axis has length [k] with [1 <= k <= rank] and
    whose coordinates lie in [0, shape[d]), [gather_nd] returns an array of
    shape [indices.shape[:-1] + params.shape[k:]] in which the block of row
    [j] is the sub-array of [params] at the coordinates of that row. *)
Theorem gather_nd_selects_trailing_slices
    (params indices : ndarray) (k : nat) (rows : list (list nat))
    (out : option loc) (h : heap) :
  wf params →
  (Z.of_nat (numel (shape params)) < 2 ^ 31)%Z →
  last (shape indices) = Some k →
  0 < k ≤ length (shape params) →
  numel (removelast (shape indices)) = length rows →
  Forall (valid_index (take k (shape params))) rows →
  data indices = coords_data rows →
  let block := numel (drop k (shape params)) in
  ∃ r,
    gather_nd params indices out h = (h ++ [r], Return (length h)) ∧
    shape r = removelast (shape indices) ++ drop k (shape params) ∧
    ∀ j coords, rows !! j = Some coords →
      take block (drop (j * block) (data r)) = data (subarray params coords).
Proof.
  intros Hwf Hsmall Hlast Hk Hn Hvalid Hdata block.
  eexists. split; [|split].
  - by apply (gather_nd_run params indices k (length rows) rows).
  - done.
  - intros j coords Hj. cbn [data subarray].
    by apply (gather_nd_block params indices k (length rows) rows).
Qed.

Lemma gather_nd_selects_trailing_slices_witness :
  ∃ r,
    gather_nd (NDArray [2; 3] [1; 2; 3; 4; 5; 6]%Z) (NDArray [2; 1] [1; 0]%Z) None []
      = ([r], Return 0) ∧
    shape r = [2; 3] ∧
    take 3 (data r) = [4; 5; 6]%Z ∧
    take 3 (drop 3 (data r)) = [1; 2; 3]%Z.
Proof.
  destruct (gather_nd_selects_trailing_slices
              (NDArray [2; 3] [1; 2; 3; 4; 5; 6]%Z) (NDArray [2; 1] [1; 0]%Z)
              1 [[1]; [0]] None [])
    as (r & Hrun & Hshape & Hblocks).
  - reflexivity.
  - reflexivity.
  - reflexivity.
  - simpl. lia.
  - reflexivity.
  - repeat constructor.
  - reflexivity.
  - exists r. split; [exact Hrun|]. split; [exact Hshape|]. split.
    + exact (Hblocks 0 [1] eq_refl).
    + exact (Hblocks 1 [0] eq_refl).
Defined.

(** C7 as stated fails for [k = 0]: the result should have the shape
    [[1; 2]] and hold [params]; the call raises. *)
Lemma gather_nd_without_coordinates_fails :
  gather_nd (NDArray [2] [10; 20]%Z) (NDArray [1; 0] []) None [] = ([], Raise ValueError).
Proof. vm_compute. reflexivity. Qed.

(** ** The [replace] branch of [scatter_nd] and the offsets it writes *)

(** The [replace] branch of [scatter_nd] without an output buffer. *)
Lemma scatter_nd_replace_fresh indices updates sh k n pos vals h :
  last (shape indices) = Some k → k ≠ 0 → length (data indices) = n * k →
  k ≤ length sh →
  np.fancy_positions sh (np.index_tuple (np.T (NDArray [n; k] (data indices)))) = Some pos →
  np.broadcast_to (np.squeeze_leading updates (1 + (length sh - k))) ([n] ++ drop k sh)
    = Some vals →
  scatter_nd indices updates (Some sh) "replace" None h
  = (h ++ [np.zeros sh;
           NDArray sh (np.scatter_with (λ _ v, v) (replicate (numel sh) 0%Z) pos (data vals))],
     Return (S (length h))).
Proof.
  intros Hlast Hk Hlen Hrank Hpos Hvals.
  rewrite (scatter_nd_fresh_unfold _ _ _ _ _ _ _ Hlast Hk Hlen). cbv zeta.
  set (ix := np.index_tuple (np.T (NDArray [n; k] (data indices)))) in *.
  assert (length (np.cols ix) = k) as Hcols by apply index_tuple_cols_length.
  pose proof (setitem_run ((h ++ [np.zeros sh]) ++ [np.zeros sh])
    (length (h ++ [np.zeros sh])) _ ix updates pos vals (lookup_new _ _)) as Hrun.
  cbn [shape data np.zeros] in Hrun. rewrite Hcols in Hrun.
  change (length (np.ishape ix)) with 1 in Hrun.
  specialize (Hrun Hrank Hpos Hvals). rewrite insert_new in Hrun.
  rewrite decide_False, decide_True by done.
  erewrite bind_eq; [reflexivity|].
  rewrite (bind_eq _ _ _ _ _ (alloc_run _ _)).
  rewrite (bind_eq _ _ _ _ _ (copy_run _ _ _ (lookup_new _ _))).
  rewrite (bind_eq _ _ _ _ _ Hrun). unfold ret.
  by rewrite length_app, Nat.add_comm, <-(assoc_L (++)).
Qed.

Section coordinate_rows.
Context (sh : list nat) (k : nat) (rows : list (list nat)).
Hypothesis Hk : 0 < k ≤ length sh.
Hypothesis Hvalid : Forall (valid_index (take k sh)) rows.

Local Abbreviation block := (numel (drop k sh)).

Lemma rows_have_length : Forall (λ r, length r = k) rows.
Proof using All.
  eapply Forall_impl; [exact Hvalid|]. intros r Hr. simpl.
  rewrite (valid_index_length _ _ Hr), length_take. lia.
Qed.

(** Rows of non-negative coordinates in range are their own normal form. *)
Lemma normalized_rows_coords indices :
  data indices = coords_data rows →
  normalized_rows sh indices (length rows) k = Some rows.
Proof using All.
  intros Hdata. unfold normalized_rows, index_row_of. apply mapM_Some.
  apply Forall2_same_length_lookup_2; [by rewrite length_seq|].
  intros j x r Hx Hr. apply lookup_seq in Hx as [-> _]. rewrite Nat.add_0_l.
  rewrite Hdata, (index_data_row k rows rows_have_length j r Hr).
  pose proof (Forall_lookup_1 _ _ _ _ rows_have_length Hr) as Hlen. simpl in Hlen.
  pose proof (Forall_lookup_1 _ _ _ _ Hvalid Hr) as Hv. simpl in Hv.
  apply normalize_row_nonneg; rewrite Hlen; [lia|done].
Qed.

Lemma addressed_lookup j r t :
  rows !! j = Some r → t < block →
  addressed sh k rows !! (j * block + t) = Some (ravel sh r + t).
Proof using All.
  intros Hr Ht. unfold addressed. rewrite concat_mjoin.
  apply (join_lookup_Some_same_length' block).
  - apply Forall_fmap, Forall_true. intros r'. simpl. apply block_positions_length.
  - done.
  - exists (np.block_positions block (ravel sh r)).
    rewrite list_lookup_fmap, Hr. split; [done|]. by apply block_positions_lookup.
Qed.

Lemma addressed_length : length (addressed sh k rows) = length rows * block.
Proof using All.
  unfold addressed. rewrite concat_mjoin, length_join, <-list_fmap_compose.
  apply sum_list_fmap_same, Forall_true. intros r. simpl. apply block_positions_length.
Qed.

(** Pairwise distinct rows address pairwise distinct offsets. *)
Lemma addressed_NoDup : NoDup rows → NoDup (addressed sh k rows).
Proof using All.
  intros Hnd. apply NoDup_alt. intros i i' x Hi Hi'.
  unfold addressed in Hi, Hi'. rewrite concat_mjoin in Hi, Hi'.
  assert (Forall (λ l, length l = block)
            ((λ r, np.block_positions block (ravel sh r)) <$> rows)) as Hblocks.
  { apply Forall_fmap, Forall_true. intros r'. simpl. apply block_positions_length. }
  apply (join_lookup_Some_same_length block _ _ _ Hblocks) in Hi as (j & l & t & Hl & Ht & ->).
  apply (join_lookup_Some_same_length block _ _ _ Hblocks) in Hi' as (j' & l' & t' & Hl' & Ht' & ->).
  rewrite list_lookup_fmap in Hl, Hl'.
  destruct (rows !! j) as [r|] eqn:Er; [|done].
  destruct (rows !! j') as [r'|] eqn:Er'; [|done].
  simpl in Hl, Hl'. injection Hl as <-. injection Hl' as <-.
  pose proof (lookup_lt_Some _ _ _ Ht) as Hlt. rewrite block_positions_length in Hlt.
  pose proof (lookup_lt_Some _ _ _ Ht') as Hlt'. rewrite block_positions_length in Hlt'.
  rewrite block_positions_lookup in Ht, Ht' by done.
  injection Ht as Hx. injection Ht' as Hx'.
  pose proof (Forall_lookup_1 _ _ _ _ Hvalid Er) as Hv. simpl in Hv.
  pose proof (Forall_lookup_1 _ _ _ _ Hvalid Er') as Hv'. simpl in Hv'.
  destruct (ravel_leading sh k r Hv) as [E _].
  destruct (ravel_leading sh k r' Hv') as [E' _].
  assert (ravel (take k sh) r = ravel (take k sh) r' ∧ t = t') as [Hrr ->].
  { apply (Nat.mul_split_l block); [done..|]. lia. }
  apply (ravel_inj _ _ _ Hv Hv') in Hrr. subst r'.
  by rewrite (NoDup_lookup _ _ _ _ Hnd Er Er').
Qed.
End coordinate_rows.

(** ** Round trip *)

(** C4, as amended.  For pairwise distinct index rows of [k >= 1]
    coordinates, each in [0, shape[d]), updates of shape
    [(n,) + shape[k:]] and a target of fewer than 2^31 elements,
    [scatter_nd] with reduction "replace" and no output buffer, followed by
    [gather_nd] of its result at the same indices, returns the elements of
    the updates. *)
Theorem scatter_nd_then_gather_nd
    (indices updates : ndarray) (sh : list nat) (k : nat) (rows : list (list nat))
    (h : heap) :
  last (shape indices) = Some k →
  0 < k ≤ length sh →
  numel (removelast (shape indices)) = length rows →
  data indices = coords_data rows →
  Forall (valid_index (take k sh)) rows →
  NoDup rows →
  shape updates = length rows :: drop k sh →
  wf updates →
  (Z.of_nat (numel sh) < 2 ^ 31)%Z →
  ∃ z t g,
    scatter_nd indices updates (Some sh) "replace" None h
      = (h ++ [z; t], Return (S (length h))) ∧
    shape t = sh ∧
    gather_nd t indices None (h ++ [z; t]) = (h ++ [z; t; g], Return (S (S (length h)))) ∧
    shape g = removelast (shape indices) ++ drop k sh ∧
    data g = data updates.
Proof.
  intros Hlast Hk Hn Hdata Hvalid Hnd Hush Hwfu Hsmall.
  set (n := length rows) in *. set (block := numel (drop k sh)).
  set (P := addressed sh k rows).
  set (t := NDArray sh (np.scatter_with (λ _ v, v) (replicate (numel sh) 0%Z) P (data updates))).
  pose proof (rows_have_length sh k rows Hk Hvalid) as Hrl.
  assert (length (data indices) = n * k) as Hilen.
  { by rewrite Hdata, (index_data_length k). }
  assert (length (data updates) = n * block) as Hulen.
  { unfold wf in Hwfu. rewrite Hwfu, Hush. done. }
  assert (wf t) as Hwft.
  { unfold wf, t. cbn [shape data]. by rewrite scatter_with_length, length_replicate. }
  exists (np.zeros sh), t. eexists. split; [|split; [done|]].
  - apply (scatter_nd_replace_fresh indices updates sh k n P updates); try done; try lia.
    + apply fancy_positions_nd; [done|]. by apply (normalized_rows_coords sh k rows Hk Hvalid).
    + rewrite squeeze_leading_id by (rewrite Hush, length_cons, length_drop; lia).
      by apply broadcast_to_id'.
  - rewrite (gather_nd_run t indices k n rows Hlast Hk Hn eq_refl Hvalid Hdata Hwft Hsmall).
    rewrite length_app, Nat.add_comm, <-(assoc_L (++)). cbn [length Nat.add app shape data t].
    split; [reflexivity|]. split; [done|].
    cbn [data]. unfold gathered, gather_block. cbn [shape data t]. fold block.
    apply list_eq. intros p. rewrite list_lookup_fmap.
    destruct (decide (p < n * block)) as [Hp|Hp].
    + rewrite lookup_seq_lt by done. simpl.
      assert (block ≠ 0) as Hb by (intros E; rewrite E in Hp; lia).
      assert (p / block < n) as Hj by (apply Nat.Div0.div_lt_upper_bound; lia).
      destruct (lookup_lt_is_Some_2 rows (p / block) Hj) as [r Er].
      destruct (lookup_lt_is_Some_2 (data updates) p ltac:(lia)) as [u Eu].
      pose proof (Nat.mod_upper_bound p block Hb) as Ht.
      pose proof (addressed_lookup sh k rows Hk Hvalid _ r _ Er Ht) as HP.
      assert (p / block * block + p mod block = p) as Ep.
      { pose proof (Nat.div_mod_eq p block). lia. }
      fold block in HP. rewrite Ep in HP.
      pose proof (Forall_lookup_1 _ _ _ _ Hvalid Er) as Hv. simpl in Hv.
      destruct (ravel_leading sh k r Hv) as [_ Hbound]. fold block in Hbound.
      rewrite (list_lookup_total_correct _ _ _ Er), Eu. f_equal.
      rewrite list_lookup_total_alt, scatter_with_lookup.
      rewrite lookup_replicate_2 by lia. simpl.
      by rewrite (hits_NoDup P (data updates) p _ u (addressed_NoDup sh k rows Hk Hvalid Hnd) HP Eu).
    + rewrite lookup_seq_ge by lia. symmetry. apply lookup_ge_None. lia.
Qed.

Lemma scatter_nd_then_gather_nd_witness :
  ∃ z t g,
    scatter_nd (NDArray [2; 1] [1; 0]%Z) (NDArray [2; 2] [3; 5; 7; 9]%Z) (Some [2; 2])
               "replace" None [] = ([z; t], Return 1) ∧
    shape t = [2; 2] ∧
    gather_nd t (NDArray [2; 1] [1; 0]%Z) None [z; t] = ([z; t; g], Return 2) ∧
    shape g = [2; 2] ∧
    data g = [3; 5; 7; 9]%Z.
Proof.
  apply (scatter_nd_then_gather_nd
           (NDArray [2; 1] [1; 0]%Z) (NDArray [2; 2] [3; 5; 7; 9]%Z) [2; 2] 1 [[1]; [0]] []).
  - reflexivity.
  - simpl. lia.
  - reflexivity.
  - reflexivity.
  - repeat constructor.
  - apply (bool_decide_unpack _). vm_compute. exact I.
  - reflexivity.
  - reflexivity.
  - reflexivity.
Defined.

(** C4 as stated fails for a negative coordinate: [scatter_nd] writes the
    update 7 at [(0, 2)], counting -1 from the end of the axis, and
    [gather_nd] reads the flat offset -1, the last element of the array. *)
Lemma negative_coordinate_breaks_round_trip :
  scatter_nd (NDArray [1; 2] [0; -1]%Z) (vector [7%Z]) (Some [2; 3]) "replace" None []
  = ([np.zeros [2; 3]; NDArray [2; 3] [0; 0; 7; 0; 0; 0]%Z], Return 1) ∧
  gather_nd (NDArray [2; 3] [0; 0; 7; 0; 0; 0]%Z) (NDArray [1; 2] [0; -1]%Z) None []
  = ([vector [0%Z]], Return 0).
Proof. vm_compute. done. Qed.

(** ** Exchanging axes *)

Section swap.
Context {A : Type} `{Inhabited A}.
Implicit Types (l : list A) (i j p : nat).





End swap.

Section index.
Implicit Types (sh I : list nat).

Lemma valid_index_lookup sh I :
  valid_index sh I ↔
  length I = length sh ∧ ∀ p i d, I !! p = Some i → sh !! p = Some d → i < d.
Proof. unfold valid_index. apply Forall2_same_length_lookup. Qed.



Lemma valid_index_lt sh I p d : valid_index sh I → sh !! p = Some d → I !!! p < d.
Proof.
  intros HI Hd. apply valid_index_lookup in HI as [Hlen HI].
  destruct (lookup_lt_is_Some_2 I p) as [i Ei].
  { rewrite Hlen. by eapply lookup_lt_Some. }
  rewrite (list_lookup_total_correct _ _ _ Ei). by eapply HI.
Qed.

End index.


(** ** The exclusive branch of [cumprod] *)






Section cumprod_exclusive.
Context (x : ndarray) (axis : Z) (i : nat).

Local Abbreviation j := (length (shape x) - 1).
Local Abbreviation m := (shape x !!! i).
Local Abbreviation sh1 := (np.swap (shape x) i j).
Local Abbreviation batch := (removelast sh1).
Local Abbreviation valid_axis := (np.normalize_index (length (shape x)) axis = Some i).
Local Abbreviation x1 := (tabulate sh1 (λ I, nd_get x (np.swap I i j))).





End cumprod_exclusive.

(** ** [cumprod] *)




(** ** Unknown reductions *)

(** C2.  For a reduction other than "sum", "replace", "min" and "max",
    [scatter_flat] and [scatter_nd] raise an exception and leave the store,
    hence any output buffer, as it was.  The message of the exception names
    "sum", "min" and "max"; it does not name "replace", which the functions
    accept. *)
Theorem unknown_reduction_raises_and_names_three_rules
    (indices updates : ndarray) (reduction : string) (h : heap) :
  reduction ∉ ["sum"; "replace"; "min"; "max"] →
  let failure : heap * outcome loc := (h, Raise (Exception (reduction_message reduction))) in
  (∀ size, scatter_flat indices updates size reduction None h = failure) ∧
  (∀ o, scatter_flat indices updates None reduction (Some o) h = failure) ∧
  (∀ k n sh,
     last (shape indices) = Some k → k ≠ 0 → length (data indices) = n * k →
     scatter_nd indices updates (Some sh) reduction None h = failure) ∧
  (∀ k n o a,
     last (shape indices) = Some k → k ≠ 0 → length (data indices) = n * k →
     h !! o = Some a →
     scatter_nd indices updates None reduction (Some o) h = failure) ∧
  String.index 0 "sum" (reduction_message "avg") ≠ None ∧
  String.index 0 "min" (reduction_message "avg") ≠ None ∧
  String.index 0 "max" (reduction_message "avg") ≠ None ∧
  String.index 0 "replace" (reduction_message "avg") = None.
Proof.
  intros Hred failure.
  assert (reduction ≠ "sum" ∧ reduction ≠ "replace" ∧ reduction ≠ "min" ∧ reduction ≠ "max")
    as (H1 & H2 & H3 & H4).
  { repeat split; intros ->; apply Hred; repeat constructor. }
  split; [|split; [|split; [|split]]].
  - intros size. unfold scatter_flat. cbv beta iota zeta.
    assert (∀ c : M loc, bind (match size with Some _ => ret tt | None => ret tt end)
                           (λ _, c) h = c h) as -> by (by destruct size).
    by rewrite !decide_False by done.
  - intros o. unfold scatter_flat. cbv beta iota zeta.
    rewrite bind_ret. by rewrite !decide_False by done.
  - intros k n sh Hlast Hk Hlen.
    rewrite (scatter_nd_fresh_unfold _ _ _ _ _ _ _ Hlast Hk Hlen). cbv zeta.
    by rewrite !decide_False by done.
  - intros k n o a Hlast Hk Hlen Ho. unfold scatter_nd. cbv beta iota zeta.
    rewrite bind_ret.
    erewrite bind_eq; [|rewrite (bind_eq _ _ _ _ _ (load_run _ _ _ Ho)); reflexivity].
    rewrite Hlast. cbn [or_raise].
    rewrite bind_lift_Return, (reshape_rows_run _ _ _ Hk Hlen), bind_lift_Return.
    by rewrite !decide_False by done.
  - vm_compute. repeat split; done.
Qed.

Lemma unknown_reduction_raises_and_names_three_rules_witness :
  let h := [vector [5; 6]%Z] in
  let failure : heap * outcome loc := (h, Raise (Exception (reduction_message "avg"))) in
  scatter_flat (vector [0%Z]) (vector [1%Z]) None "avg" (Some 0) h = failure ∧
  scatter_nd (NDArray [1; 1] [0%Z]) (vector [1%Z]) None "avg" (Some 0) h = failure ∧
  String.index 0 "replace" (reduction_message "avg") = None.
Proof.
  assert ("avg" ∉ ["sum"; "replace"; "min"; "max"]) as Hred.
  { intros Hin. repeat (apply elem_of_cons in Hin as [Hin|Hin]; [discriminate|]).
    by apply elem_of_nil in Hin. }
  intros h failure.
  destruct (unknown_reduction_raises_and_names_three_rules
              (vector [0%Z]) (vector [1%Z]) "avg" h Hred)
    as (_ & Hflat & _ & _ & _ & _ & _ & Hmsg).
  destruct (unknown_reduction_raises_and_names_three_rules
              (NDArray [1; 1] [0%Z]) (vector [1%Z]) "avg" h Hred)
    as (_ & _ & _ & Hnd & _).
  split; [exact (Hflat 0)|]. split; [|exact Hmsg].
  exact (Hnd 1 1 0 _ eq_refl ltac:(discriminate) eq_refl eq_refl).
Defined.

(** ** Output buffers *)

(** C10.  [gather] does not look at [out]: the call behaves as without
    it, and every array of the store, an output buffer among them, is left
    as it was. *)
Theorem gather_ignores_out
    (params indices : ndarray) (axis : option Z) (out : option loc) (h : heap) :
  gather params indices axis out h = gather params indices axis None h ∧
  take (length h) (gather params indices axis out h).1 = h.
Proof.
  split; [reflexivity|].
  unfold gather, bind, lift, alloc, ivy._to_device, ret.
  destruct (np.take_along_axis params indices axis) as [r|e]; simpl.
  - by rewrite take_app_length.
  - by rewrite firstn_all.
Qed.

(** C1.  With an output buffer holding [1, 2], index 0 and update 9:
    under "sum", "min" and "max" [scatter_flat] updates the buffer in place
    and returns it, and so does [scatter_nd] under "replace"; under
    "replace" [scatter_flat] returns a new array and the output buffer
    still holds [1, 2]. *)
Theorem scatter_flat_replace_leaves_out_untouched :
  let h := [vector [1; 2]%Z] in
  scatter_flat (vector [0%Z]) (vector [9%Z]) None "sum" (Some 0) h
    = ([vector [10; 2]%Z], Return 0) ∧
  scatter_flat (vector [0%Z]) (vector [9%Z]) None "min" (Some 0) h
    = ([vector [1; 2]%Z], Return 0) ∧
  scatter_flat (vector [0%Z]) (vector [9%Z]) None "max" (Some 0) h
    = ([vector [9; 2]%Z], Return 0) ∧
  scatter_nd (NDArray [1; 1] [0%Z]) (vector [9%Z]) None "replace" (Some 0) h
    = ([vector [9; 2]%Z; vector [9; 2]%Z], Return 0) ∧
  scatter_flat (vector [0%Z]) (vector [9%Z]) None "replace" (Some 0) h
    = ([vector [1; 2]%Z; vector [9; 2]%Z], Return 1).
Proof. vm_compute. repeat split; reflexivity. Qed.

(** ** Scattering into an output buffer *)













(** ** Last write, missing targets and unused parameters *)

Lemma foldl_replace_is_last (x : Z) (l : list Z) :
  foldl (λ _ v, v) x l = default x (last l).
Proof.
  induction l as [|v l _] using rev_ind; [done|].
  by rewrite foldl_snoc, last_snoc.
Qed.

(** X3.  With reduction "replace" and no output buffer,
    [scatter_flat] returns a new buffer of [size] elements in which every
    position holds the last update sent to it, and 0 when none was. *)
Theorem scatter_flat_replace_keeps_the_last_write
    (idx upd : list Z) (pos : list nat) (size : nat) (h : heap) :
  length upd = length idx →
  mapM (np.normalize_index size) idx = Some pos →
  ∃ z r,
    scatter_flat (vector idx) (vector upd) (Some size) "replace" None h
      = (h ++ [z; r], Return (S (length h))) ∧
    shape r = [size] ∧
    ∀ q, q < size → data r !! q = Some (default 0%Z (last (hits q pos upd))).
Proof.
  intros Hlen Hpos. eexists _, _. split; [|split].
  - apply (scatter_flat_replace_fresh (vector idx) (vector upd) size pos (vector upd)).
    + by apply fancy_positions_flat.
    + rewrite squeeze_leading_id by (simpl; lia).
      apply broadcast_to_id'; [apply wf_vector|]. simpl. by rewrite Hlen.
  - done.
  - intros q Hq. cbn [data vector].
    rewrite scatter_with_lookup, lookup_replicate_2 by done. simpl.
    by rewrite foldl_replace_is_last.
Qed.

Lemma scatter_flat_replace_keeps_the_last_write_witness :
  ∃ z r,
    scatter_flat (vector [1; -2; 1]%Z) (vector [5; 6; 7]%Z) (Some 3) "replace" None []
      = ([z; r], Return 1) ∧
    data r !! 0 = Some 0%Z ∧
    data r !! 1 = Some 7%Z.
Proof.
  destruct (scatter_flat_replace_keeps_the_last_write [1; -2; 1]%Z [5; 6; 7]%Z [1; 1; 1] 3 [])
    as (z & r & Hrun & Hshape & Hget).
  - reflexivity.
  - reflexivity.
  - exists z, r. split; [exact Hrun|]. split.
    + apply (Hget 0). lia.
    + apply (Hget 1). lia.
Defined.

(** X4.  When neither a size (or shape) nor an output buffer is given,
    the scatter functions fail and leave the store as it was: [scatter_flat]
    raises [TypeError] under each of the four rules, from [np.zeros([None])]
    or [np.ones([None])]; [scatter_nd] raises [AttributeError] whatever the
    reduction, known or not, because it reads [out.shape] first. *)
Theorem scatter_without_size_or_out_raises
    (indices updates : ndarray) (reduction : string) (h : heap) :
  scatter_flat indices updates None "sum" None h = (h, Raise TypeError) ∧
  scatter_flat indices updates None "replace" None h = (h, Raise TypeError) ∧
  scatter_flat indices updates None "min" None h = (h, Raise TypeError) ∧
  scatter_flat indices updates None "max" None h = (h, Raise TypeError) ∧
  scatter_nd indices updates None reduction None h = (h, Raise AttributeError).
Proof. repeat split; reflexivity. Qed.

(** X5.  [gather_nd] ignores its [out] parameter: the call returns
    the same result and leaves the same store whether or not an output
    buffer is supplied, and no buffer of the caller is written. *)
Theorem gather_nd_ignores_out (params indices : ndarray) (out : option loc) (h : heap) :
  gather_nd params indices out h = gather_nd params indices None h ∧
  take (length h) (gather_nd params indices out h).1 = h.
Proof.
  split; [reflexivity|]. unfold gather_nd. cbv zeta.
  repeat match goal with
  | |- context [bind (lift ?o) _] =>
      destruct o; [rewrite bind_lift_Return|by (cbn; rewrite firstn_all)]
  end.
  rewrite (bind_eq _ _ _ _ _ (alloc_run _ _)). cbn. by rewrite take_app_length.
Qed.

Lemma take_along_1d_None params idx :
  mapM (np.normalize_index (length params)) idx = None →
  np.take_along (vector params) (vector idx) 0 = Raise IndexError.
Proof.
  intros Hnone. unfold np.take_along. rewrite decide_True by done.
  change (np.along_shape 0 (shape (vector params)) (shape (vector idx)))
    with (Some [length idx]). cbn [or_raise obind].
  match goal with
  | |- context [mapM ?f ?l] => assert (mapM f l = None) as ->; [|done]
  end.
  apply mapM_None_1 in Hnone. apply Exists_exists in Hnone as (z & Hz & Hn).
  apply list_elem_of_lookup_1 in Hz as [j Hj].
  pose proof (lookup_lt_Some _ _ _ Hj) as Hlt.
  apply mapM_None_2, Exists_exists. exists j. split.
  { apply elem_of_seq. simpl. lia. }
  rewrite unravel_1d.
  assert (nd_get (vector idx) (np.clip_index (shape (vector idx)) [j]) = z) as ->.
  { unfold nd_get, np.clip_index. simpl. case_decide as Hone.
    - assert (j = 0) as -> by lia. simpl. by rewrite (list_lookup_total_correct _ _ _ Hj).
    - replace (j * 1 + 0) with j by lia. by rewrite (list_lookup_total_correct _ _ _ Hj). }
  change (shape (vector params) !!! 0) with (length params). by rewrite Hn.
Qed.

(** X6.  On one-dimensional arrays, an index outside
    [-len(params), len(params)) makes [gather] raise [IndexError], along
    [axis] 0, -1 or [None]; nothing is allocated or written. *)
Theorem gather_index_out_of_range_raises
    (params idx : list Z) (axis : option Z) (out : option loc) (z : Z) (h : heap) :
  axis = None ∨ axis = Some 0%Z ∨ axis = Some (-1)%Z →
  z ∈ idx →
  ¬ (- Z.of_nat (length params) ≤ z < Z.of_nat (length params))%Z →
  gather (vector params) (vector idx) axis out h = (h, Raise IndexError).
Proof.
  intros Hax Hin Hz. unfold gather.
  assert (np.take_along_axis (vector params) (vector idx) axis = Raise IndexError) as ->; [|done].
  assert (mapM (np.normalize_index (length params)) idx = None) as Hnone.
  { apply mapM_None_2, Exists_exists. exists z. split; [done|].
    unfold np.normalize_index. repeat case_decide; try done; lia. }
  destruct Hax as [->|[->| ->]].
  - simpl. by apply take_along_1d_None.
  - simpl. by apply take_along_1d_None.
  - unfold np.take_along_axis, np.normalize_axis.
    change (length (shape (vector params))) with 1.
    change (np.normalize_index 1 (-1)) with (Some 0). cbn [or_raise obind].
    by apply take_along_1d_None.
Qed.

Lemma gather_index_out_of_range_raises_witness :
  gather (vector [10; 20]%Z) (vector [0; 2]%Z) (Some (-1)%Z) None [] = ([], Raise IndexError).
Proof.
  apply (gather_index_out_of_range_raises [10; 20]%Z [0; 2]%Z (Some (-1)%Z) None 2 []).
  - right. right. reflexivity.
  - apply (list_elem_of_lookup_2 _ 1). reflexivity.
  - simpl. lia.
Defined.

(** ** The [sum] rule: totals, whatever the order *)










(** ** [gather] along an axis *)

Lemma mapM_Some_fmap {A B} (f : A → option B) (g : A → B) (l : list A) :
  (∀ x, x ∈ l → f x = Some (g x)) → mapM f l = Some (g <$> l).
Proof.
  intros Hf. apply mapM_Some. apply Forall2_fmap_r, Forall_Forall2_diag, Forall_forall.
  intros x Hx. by apply Hf.
Qed.

Lemma along_shape_same_batch ax sa si :
  length si = length sa →
  (∀ d, d ≠ ax → si !! d = sa !! d) →
  np.along_shape ax sa si = Some si.
Proof.
  intros Hlen Hbatch. unfold np.along_shape. apply mapM_Some.
  apply Forall2_same_length_lookup_2.
  { rewrite !length_zip, length_seq. lia. }
  intros j [d [x y]] z Hj Hz.
  apply lookup_zip_with_Some in Hj as (d' & xy & E & Hd & Hxy). injection E as <- <-.
  apply lookup_zip_with_Some in Hxy as (x' & y' & E & Hx & Hy). injection E as <- <-.
  apply lookup_seq in Hd as [-> _]. simpl in *.
  assert (z = y) as -> by congruence.
  case_decide; [done|].
  assert (x = y) as -> by (specialize (Hbatch j ltac:(done)); congruence).
  by rewrite decide_True.
Qed.

Lemma clip_index_valid sh I : valid_index sh I → np.clip_index sh I = I.
Proof. intros HI. by apply (bcast_index_id sh I). Qed.

Lemma clip_index_insert ax sa si I i :
  length si = length sa →
  (∀ d, d ≠ ax → si !! d = sa !! d) →
  valid_index si I →
  <[ax := i]> (np.clip_index sa I) = <[ax := i]> I.
Proof.
  intros Hlen Hbatch HI. pose proof (valid_index_length _ _ HI) as HIlen.
  assert (length (np.clip_index sa I) = length I) as Hclen.
  { unfold np.clip_index. rewrite length_zip_with. lia. }
  apply list_eq. intros j.
  destruct (decide (ax = j)) as [->|Hne].
  - destruct (decide (j < length I)) as [Hj|Hj].
    + by rewrite !list_lookup_insert_eq by lia.
    + rewrite !(proj2 (lookup_ge_None _ _)); [done|rewrite length_insert; lia..].
  - rewrite !list_lookup_insert_ne by done.
    unfold np.clip_index. rewrite lookup_zip_with.
    destruct (sa !! j) as [s|] eqn:Es; simpl.
    + destruct (I !! j) as [c|] eqn:Ec; simpl; [|done].
      case_decide as H1; [|done]. subst s. f_equal.
      assert (si !! j = Some 1) as Hs by (by rewrite Hbatch).
      pose proof (valid_index_lt _ _ _ _ HI Hs) as Hlt.
      rewrite (list_lookup_total_correct _ _ _ Ec) in Hlt. lia.
    + symmetry. apply lookup_ge_None. apply lookup_ge_None in Es. lia.
Qed.

Section gather_axis.
Context (params indices : ndarray) (ax : nat).
Hypothesis Hrank : length (shape indices) = length (shape params).
Hypothesis Hbatch : ∀ d, d ≠ ax → shape indices !! d = shape params !! d.
Hypothesis Hwf : wf indices.
Hypothesis Hrange :
  Forall (λ z, (- Z.of_nat (shape params !!! ax) ≤ z < Z.of_nat (shape params !!! ax))%Z)
         (data indices).

Local Abbreviation m := (shape params !!! ax).
Local Abbreviation picked :=
  (λ p, let I := unravel (shape indices) p in
        nd_get params (<[ax := default 0 (np.normalize_index m (nd_get indices I))]> I)).

Lemma index_in_range I :
  valid_index (shape indices) I → is_Some (np.normalize_index m (nd_get indices I)).
Proof using All.
  intros HI. pose proof (ravel_lt _ _ HI) as Hlt. rewrite <-Hwf in Hlt.
  destruct (lookup_lt_is_Some_2 _ _ Hlt) as [z Hz].
  unfold nd_get. rewrite (list_lookup_total_correct _ _ _ Hz).
  pose proof (Forall_lookup_1 _ _ _ _ Hrange Hz) as Hzr. simpl in Hzr.
  unfold np.normalize_index. repeat case_decide; try (by eexists); lia.
Qed.

Lemma take_along_run :
  np.take_along params indices ax
  = Return (NDArray (shape indices)
              (picked <$> seq 0 (numel (shape indices)))).
Proof using All.
  unfold np.take_along. rewrite decide_True by done.
  rewrite (along_shape_same_batch ax _ _ Hrank Hbatch). cbn [or_raise obind].
  rewrite (mapM_Some_fmap _ picked); [done|].
  intros p Hp. apply elem_of_seq in Hp as [_ Hp]. simpl in Hp.
  pose proof (unravel_valid _ _ Hp) as HI. set (I := unravel (shape indices) p) in *.
  cbv zeta. fold I. rewrite (clip_index_valid _ _ HI).
  destruct (index_in_range I HI) as [i Hi]. rewrite Hi. simpl.
  by rewrite (clip_index_insert ax _ _ I i Hrank Hbatch HI).
Qed.

Lemma take_along_get I i :
  valid_index (shape indices) I →
  np.normalize_index m (nd_get indices I) = Some i →
  nd_get (NDArray (shape indices)
            (picked <$> seq 0 (numel (shape indices)))) I
  = nd_get params (<[ax := i]> I).
Proof using All.
  intros HI Hi. unfold nd_get at 1. cbn [shape data].
  apply list_lookup_total_correct.
  rewrite list_lookup_fmap, lookup_seq_lt by by apply ravel_lt.
  simpl. by rewrite unravel_ravel, Hi.
Qed.

End gather_axis.

(** X9.  For [params] and [indices] of one rank that agree on every
    axis but [axis], and indices in [-m, m) where [m] is the length of
    [params] along [axis], [gather] returns a new array of the shape of
    [indices] whose element at [I] is the element of [params] at [I] with
    the coordinate on [axis] replaced by the index found at [I] (counted
    from the end when negative). *)
Theorem gather_reads_along_the_axis
    (params indices : ndarray) (axis : Z) (ax : nat) (out : option loc) (h : heap) :
  np.normalize_index (length (shape params)) axis = Some ax →
  length (shape indices) = length (shape params) →
  (∀ d, d ≠ ax → shape indices !! d = shape params !! d) →
  wf indices →
  Forall (λ z, (- Z.of_nat (shape params !!! ax) ≤ z < Z.of_nat (shape params !!! ax))%Z)
         (data indices) →
  ∃ r,
    gather params indices (Some axis) out h = (h ++ [r], Return (length h)) ∧
    shape r = shape indices ∧
    ∀ I i, valid_index (shape indices) I →
      np.normalize_index (shape params !!! ax) (nd_get indices I) = Some i →
      nd_get r I = nd_get params (<[ax := i]> I).
Proof.
  intros Hax Hrank Hbatch Hwf Hrange. eexists. split; [|split].
  - unfold gather, np.take_along_axis, np.normalize_axis. rewrite Hax.
    cbn [or_raise obind].
    rewrite (take_along_run params indices ax Hrank Hbatch Hwf Hrange).
    by rewrite bind_lift_Return.
  - done.
  - intros I i HI Hi. by apply take_along_get.
Qed.

Lemma gather_reads_along_the_axis_witness :
  ∃ r,
    gather (NDArray [2; 3] [1; 2; 3; 4; 5; 6]%Z) (NDArray [2; 2] [2; 0; -1; 1]%Z)
           (Some (-1)%Z) None [] = ([r], Return 0) ∧
    shape r = [2; 2] ∧
    nd_get r [0; 0] = 3%Z ∧
    nd_get r [1; 0] = 6%Z.
Proof.
  destruct (gather_reads_along_the_axis
              (NDArray [2; 3] [1; 2; 3; 4; 5; 6]%Z) (NDArray [2; 2] [2; 0; -1; 1]%Z)
              (-1) 1 None []) as (r & Hrun & Hshape & Hget).
  - reflexivity.
  - reflexivity.
  - intros [|[|d]] Hd; [reflexivity|contradiction|reflexivity].
  - reflexivity.
  - repeat constructor; simpl; lia.
  - exists r. split; [exact Hrun|]. split; [exact Hshape|]. split.
    + apply (Hget [0; 0] 2); [repeat constructor|reflexivity].
    + apply (Hget [1; 0] 2); [repeat constructor|reflexivity].
Defined.

(** ** [cumprod]: inclusive and exclusive mode, and the output buffer *)







(** ** In-place arithmetic and copies *)











(** ** Element-wise operations with broadcasting *)







(** ** [floormod] *)








(** ** [unstack] *)

Lemma for_each_fmap_Return {A B C} (f : B → outcome C) (g : A → B) (k : A → C) (l : list A) :
  (∀ a, a ∈ l → f (g a) = Return (k a)) →
  for_each f (g <$> l) = Return (k <$> l).
Proof.
  induction l as [|a l IH]; intros Hf; [done|].
  rewrite !fmap_cons. cbn [for_each].
  rewrite Hf by (apply elem_of_cons; auto). cbn [obind].
  rewrite IH; [done|]. intros a' Ha'. apply Hf, elem_of_cons. auto.
Qed.

(** An axis of length 1 does not change the row-major offset. *)
Lemma ravel_unit_axis s1 s2 J1 J2 :
  length J1 = length s1 →
  ravel (s1 ++ 1 :: s2) (J1 ++ 0 :: J2) = ravel (s1 ++ s2) (J1 ++ J2).
Proof. intros Hlen. rewrite !ravel_app by done. simpl. lia. Qed.

Section unstack.
Context (x : ndarray) (axis : Z) (s1 s2 : list nat) (d : nat).
Hypothesis Hshape : shape x = s1 ++ d :: s2.
Hypothesis Haxis : np.normalize_index (length (shape x)) axis = Some (length s1).
Hypothesis Hd : 0 < d.

Local Abbreviation ax := (length s1).
Local Abbreviation piece i :=
  (tabulate (s1 ++ 1 :: s2) (λ I, nd_get x (<[ax := i * 1 + I !!! ax]> I))).

Lemma axis_length : shape x !!! ax = d.
Proof using All.
  rewrite Hshape. apply list_lookup_total_correct. by apply list_lookup_middle.
Qed.

Lemma split_run : np.split x d axis = inr ((λ i, piece i) <$> seq 0 d).
Proof using All.
  unfold np.split. rewrite Haxis, axis_length.
  rewrite decide_False by lia. rewrite Nat.Div0.mod_same, decide_True by done.
  rewrite Nat.div_same by lia. rewrite Hshape.
  replace (<[ax := 1]> (s1 ++ d :: s2)) with (s1 ++ 1 :: s2); [done|].
  by rewrite <-(Nat.add_0_r ax), insert_app_r.
Qed.

Lemma squeeze_piece i :
  np.squeeze (piece i) axis = Return (NDArray (s1 ++ s2) (data (piece i))).
Proof using All.
  unfold np.squeeze, np.normalize_axis. cbn [shape tabulate].
  replace (length (s1 ++ 1 :: s2)) with (length (shape x))
    by (rewrite Hshape, !length_app; done).
  rewrite Haxis. cbn [or_raise obind].
  rewrite decide_True by by apply list_lookup_middle.
  by rewrite delete_middle.
Qed.

Lemma unstack_run keepdims :
  unstack x axis keepdims
  = inr (if keepdims then (λ i, piece i) <$> seq 0 d
         else (λ i, NDArray (s1 ++ s2) (data (piece i))) <$> seq 0 d).
Proof using All.
  unfold unstack. rewrite decide_False by (rewrite Hshape; by destruct s1).
  rewrite Haxis, axis_length, split_run.
  destruct keepdims; [done|].
  rewrite (for_each_fmap_Return _ _ (λ i, NDArray (s1 ++ s2) (data (piece i)))); [done|].
  intros i _. apply squeeze_piece.
Qed.

Lemma piece_get i I :
  valid_index (s1 ++ 1 :: s2) I → nd_get (piece i) I = nd_get x (<[ax := i]> I).
Proof using All.
  intros HI. rewrite nd_get_tabulate by done.
  assert (I !!! ax = 0) as ->; [|by rewrite Nat.mul_1_r, Nat.add_0_r].
  pose proof (valid_index_lt _ _ ax 1 HI (list_lookup_middle _ _ _ _ eq_refl)). lia.
Qed.

Lemma squeezed_get i J :
  valid_index (s1 ++ s2) J →
  nd_get (NDArray (s1 ++ s2) (data (piece i))) J = nd_get x (take ax J ++ i :: drop ax J).
Proof using All.
  intros HJ. unfold valid_index in HJ.
  apply Forall2_app_inv_r in HJ as (J1 & J2 & H1 & H2 & ->).
  pose proof (Forall2_length _ _ _ H1) as Hlen.
  rewrite take_app_length', drop_app_length' by done.
  transitivity (nd_get (piece i) (J1 ++ 0 :: J2)).
  { unfold nd_get. cbn [shape data tabulate]. by rewrite ravel_unit_axis. }
  rewrite (piece_get i (J1 ++ 0 :: J2)).
  - f_equal. by rewrite <-Hlen, <-(Nat.add_0_r (length J1)), insert_app_r.
  - apply valid_index_app; [done|]. constructor; [lia|done].
Qed.

End unstack.

(** X17.  Along a valid axis of positive length, [unstack] returns
    one piece per position of the axis; piece [i] holds the elements of [x]
    whose coordinate on that axis is [i], with the axis removed or, under
    [keepdims], kept with length 1. *)
Theorem unstack_returns_the_slices (x : ndarray) (axis : Z) (ax : nat) (keepdims : bool) :
  np.normalize_index (length (shape x)) axis = Some ax →
  0 < shape x !!! ax →
  ∃ pieces,
    unstack x axis keepdims = inr pieces ∧
    length pieces = shape x !!! ax ∧
    ∀ i piece, pieces !! i = Some piece →
      if keepdims then
        shape piece = <[ax := 1]> (shape x) ∧
        ∀ I, valid_index (<[ax := 1]> (shape x)) I →
          nd_get piece I = nd_get x (<[ax := i]> I)
      else
        shape piece = delete ax (shape x) ∧
        ∀ J, valid_index (delete ax (shape x)) J →
          nd_get piece J = nd_get x (take ax J ++ i :: drop ax J).
Proof.
  intros Hax Hpos.
  pose proof (normalize_index_lt _ _ _ Hax) as Hlt.
  destruct (lookup_lt_is_Some_2 _ _ Hlt) as [d Hd].
  rewrite (list_lookup_total_correct _ _ _ Hd) in *.
  set (s1 := take ax (shape x)). set (s2 := drop (S ax) (shape x)).
  assert (shape x = s1 ++ d :: s2) as Hshape by (symmetry; by apply take_drop_middle).
  assert (length s1 = ax) as Hs1 by (unfold s1; rewrite length_take; lia).
  rewrite <-Hs1 in Hax.
  eexists. split; [by apply (unstack_run x axis s1 s2 d)|]. split.
  { destruct keepdims; by rewrite length_fmap, length_seq. }
  assert (<[ax := 1]> (shape x) = s1 ++ 1 :: s2) as Hins.
  { by rewrite Hshape, <-Hs1, <-(Nat.add_0_r (length s1)), insert_app_r. }
  assert (delete ax (shape x) = s1 ++ s2) as Hdel.
  { by rewrite Hshape, <-Hs1, delete_middle. }
  intros i piece Hi. destruct keepdims.
  - rewrite list_lookup_fmap in Hi.
    destruct (seq 0 d !! i) as [i'|] eqn:Ei; [|done].
    apply lookup_seq in Ei as [-> _]. simpl in Hi. injection Hi as <-.
    split; [done|]. rewrite Hins. intros I HI. rewrite <-Hs1.
    by apply (piece_get x axis s1 s2 d).
  - rewrite list_lookup_fmap in Hi.
    destruct (seq 0 d !! i) as [i'|] eqn:Ei; [|done].
    apply lookup_seq in Ei as [-> _]. simpl in Hi. injection Hi as <-.
    split; [done|]. rewrite Hdel. intros J HJ. rewrite <-Hs1.
    by apply (squeezed_get x axis s1 s2 d).
Qed.

Lemma unstack_returns_the_slices_witness :
  ∃ p0 p1 p2,
    unstack (NDArray [2; 3] [1; 2; 3; 4; 5; 6]%Z) (-1) false = inr [p0; p1; p2] ∧
    shape p1 = [2] ∧
    nd_get p1 [0] = 2%Z ∧
    nd_get p1 [1] = 5%Z.
Proof.
  destruct (unstack_returns_the_slices (NDArray [2; 3] [1; 2; 3; 4; 5; 6]%Z) (-1) 1 false)
    as (pieces & Hrun & Hlen & Hget).
  - reflexivity.
  - simpl. lia.
  - destruct pieces as [|p0 [|p1 [|p2 [|p3 pieces]]]]; try discriminate Hlen.
    exists p0, p1, p2. split; [exact Hrun|].
    destruct (Hget 1 p1 eq_refl) as [Hshape Hel].
    split; [exact Hshape|]. split.
    + apply (Hel [0]). repeat constructor.
    + apply (Hel [1]). repeat constructor.
Defined.

(** X18.  Along an axis of length 0, [unstack] does not return an
    empty list: [np.split] is asked for 0 sections and raises
    [ZeroDivisionError]. *)
Theorem unstack_of_an_empty_axis_raises (x : ndarray) (axis : Z) (ax : nat) (keepdims : bool) :
  np.normalize_index (length (shape x)) axis = Some ax →
  shape x !!! ax = 0 →
  unstack x axis keepdims = inl np.ZeroDivisionError.
Proof.
  intros Hax Hzero. pose proof (normalize_index_lt _ _ _ Hax) as Hlt.
  unfold unstack. rewrite decide_False by (intros E; rewrite E in Hlt; simpl in Hlt; lia).
  rewrite Hax, Hzero. unfold np.split. rewrite Hax. by rewrite decide_True.
Qed.

Lemma unstack_of_an_empty_axis_raises_witness :
  unstack (NDArray [2; 0] []) 1 false = inl np.ZeroDivisionError.
Proof. exact (unstack_of_an_empty_axis_raises (NDArray [2; 0] []) 1 1 false eq_refl eq_refl). Defined.

(** ** [one_hot] *)

(** The offsets a one-dimensional index array addresses along the first
    axis of a target: for each entry the block of the sub-array it names. *)
Lemma fancy_positions_leading d rest idx pos :
  mapM (np.normalize_index d) idx = Some pos →
  np.fancy_positions (d :: rest) (np.index_array (vector idx))
  = Some (concat ((λ p, np.block_positions (numel rest) (p * numel rest)) <$> pos)).
Proof.
  intros Hpos. unfold np.fancy_positions. simpl.
  assert (mapM (λ j, np.normalize_row (d :: rest) [idx !!! j]) (seq 0 (length idx * 1))
          = Some ((λ p, [p]) <$> pos)) as ->.
  { apply mapM_Some in Hpos. apply mapM_Some.
    pose proof (Forall2_length _ _ _ Hpos) as Hlen.
    apply Forall2_same_length_lookup_2.
    { rewrite length_seq, length_fmap. lia. }
    intros j x r Hj Hr. apply lookup_seq in Hj as [-> Hj].
    rewrite list_lookup_fmap in Hr.
    destruct (pos !! j) as [p|] eqn:Ep; simpl in Hr; [injection Hr as <-|done].
    destruct (idx !! j) as [z|] eqn:Ez; [|apply lookup_ge_None in Ez; lia].
    pose proof (Forall2_lookup_lr _ _ _ _ _ _ Hpos Ez Ep) as Hn.
    unfold np.normalize_row. simpl.
    rewrite (list_lookup_total_correct _ _ _ Ez). simpl. simpl in Hn. rewrite Hn.
    simpl. destruct rest; reflexivity. }
  simpl. f_equal. clear Hpos. rewrite <-list_fmap_compose.
  induction pos as [|p pos IH]; [done|].
  rewrite !fmap_cons. cbn [concat]. rewrite IH.
  unfold compose. simpl. do 2 f_equal. rewrite ravel_nil_r. lia.
Qed.

Lemma mapM_normalize_index_lt d idx pos :
  mapM (np.normalize_index d) idx = Some pos → Forall (λ p, p < d) pos.
Proof.
  intros Hpos. apply mapM_Some in Hpos.
  induction Hpos as [|z p idx pos Hn _ IH]; constructor; [|done].
  by apply normalize_index_lt in Hn.
Qed.

Lemma eye_lookup d p c :
  p < d → c < d →
  data (np.eye d) !! (p * d + c) = Some (if decide (p = c) then 1%Z else 0%Z).
Proof.
  intros Hp Hc. unfold np.eye.
  rewrite tabulate_lookup by (rewrite !numel_cons; simpl; nia).
  rewrite unravel_2d. f_equal.
  replace ([(p * d + c) / d; (p * d + c) mod d] !!! 0) with ((p * d + c) / d) by done.
  replace ([(p * d + c) / d; (p * d + c) mod d] !!! 1) with ((p * d + c) mod d) by done.
  rewrite Nat.div_add_l, Nat.div_small, Nat.add_0_r by lia.
  rewrite Nat.add_comm, Nat.Div0.mod_add, Nat.mod_small by lia. done.
Qed.

(** The rows of the identity matrix selected by [pos]. *)
Lemma eye_rows d pos :
  Forall (λ p, p < d) pos →
  (data (np.eye d) !!!.) <$> concat ((λ p, np.block_positions d (p * d)) <$> pos)
  = (λ q, if decide (pos !!! (q / d) = q mod d) then 1%Z else 0%Z) <$> seq 0 (length pos * d).
Proof.
  intros Hlt.
  assert (Forall (λ l, length l = d) ((λ p, np.block_positions d (p * d)) <$> pos)) as Hblocks.
  { apply Forall_fmap, Forall_true. intros p. simpl. apply block_positions_length. }
  apply (list_eq_same_length _ _ (length pos * d)).
  - rewrite length_fmap, length_seq. done.
  - rewrite length_fmap, concat_mjoin, length_join, <-list_fmap_compose.
    rewrite (sum_list_fmap_same d); [done|]. apply Forall_true. intros p. simpl.
    apply block_positions_length.
  - intros q x y Hq Hx Hy.
    assert (0 < d) as Hd by (destruct d; [lia|lia]).
    rewrite list_lookup_fmap, lookup_seq_lt in Hy by done. simpl in Hy.
    injection Hy as <-.
    rewrite list_lookup_fmap in Hx.
    assert (q / d < length pos) as Hj by (apply Nat.Div0.div_lt_upper_bound; lia).
    destruct (lookup_lt_is_Some_2 pos (q / d) Hj) as [p Hp].
    pose proof (Nat.mod_upper_bound q d ltac:(lia)) as Hmod.
    assert (concat ((λ p, np.block_positions d (p * d)) <$> pos) !! q = Some (p * d + q mod d))
      as Hc.
    { rewrite concat_mjoin.
      rewrite (Nat.div_mod_eq q d) at 1. rewrite (Nat.mul_comm d).
      apply (join_lookup_Some_same_length' d); [done..|].
      exists (np.block_positions d (p * d)). rewrite list_lookup_fmap, Hp. split; [done|].
      by apply block_positions_lookup. }
    rewrite Hc in Hx. simpl in Hx. injection Hx as <-.
    rewrite (list_lookup_total_correct _ _ _ Hp).
    pose proof (Forall_lookup_1 _ _ _ _ Hlt Hp) as Hpd. simpl in Hpd.
    apply list_lookup_total_correct. by apply eye_lookup.
Qed.

Lemma fancy_positions_leading_None d rest idx :
  mapM (np.normalize_index d) idx = None →
  np.fancy_positions (d :: rest) (np.index_array (vector idx)) = None.
Proof.
  intros Hnone. unfold np.fancy_positions. simpl.
  assert (mapM (λ j, np.normalize_row (d :: rest) [idx !!! j]) (seq 0 (length idx * 1)) = None)
    as ->; [|done].
  apply eq_None_not_Some. intros Hsome. apply mapM_is_Some_1 in Hsome.
  assert (is_Some (mapM (np.normalize_index d) idx)) as [? Hs]; [|congruence].
  apply mapM_is_Some_2, Forall_lookup_2. intros j z Hz. simpl.
  pose proof (lookup_lt_Some _ _ _ Hz) as Hj.
  assert (seq 0 (length idx * 1) !! j = Some j) as Hseq by (apply lookup_seq; lia).
  pose proof (Forall_lookup_1 _ _ _ _ Hsome Hseq) as Hrow. simpl in Hrow.
  rewrite (list_lookup_total_correct _ _ _ Hz) in Hrow.
  unfold np.normalize_row in Hrow. simpl in Hrow.
  destruct (np.normalize_index d z); [done|]. by destruct Hrow.
Qed.

Lemma mapM_normalize_index_total d idx :
  Forall (λ z, (- Z.of_nat d ≤ z < Z.of_nat d)%Z) idx →
  is_Some (mapM (np.normalize_index d) idx).
Proof.
  intros Hall. apply mapM_is_Some_2. eapply Forall_impl; [done|].
  intros z Hz. simpl. unfold np.normalize_index.
  simpl in Hz. repeat case_decide; try (by eexists); lia.
Qed.

Lemma one_hot_run indices depth device out pos h :
  wf indices →
  mapM (np.normalize_index depth) (data indices) = Some pos →
  one_hot indices depth device out h
  = (h ++ [NDArray (shape indices ++ [depth])
             ((λ q, if decide (pos !!! (q / depth) = q mod depth) then 1%Z else 0%Z)
                <$> seq 0 (length pos * depth))], Return (length h)).
Proof.
  intros Hwf Hpos. unfold one_hot.
  pose proof (length_mapM _ _ _ Hpos) as Hlen.
  assert (np.getitem (np.eye depth) (np.index_array (np.ravel_array indices))
          = Return (NDArray ([length (data indices)] ++ [depth])
                      ((λ q, if decide (pos !!! (q / depth) = q mod depth) then 1%Z else 0%Z)
                         <$> seq 0 (length pos * depth)))) as ->.
  { unfold np.getitem.
    change (np.ravel_array indices) with (vector (data indices)).
    change (shape (np.eye depth)) with [depth; depth].
    rewrite decide_True by (simpl; lia).
    rewrite (fancy_positions_leading _ _ _ _ Hpos).
    replace (numel [depth]) with depth by (simpl; lia).
    cbn [or_raise obind]. f_equal. f_equal.
    apply eye_rows. by eapply mapM_normalize_index_lt. }
  rewrite bind_lift_Return. unfold np.reshape. cbn [data].
  rewrite decide_True.
  - by rewrite bind_lift_Return.
  - rewrite length_fmap, length_seq, numel_app, <-Hlen, Hwf. simpl. lia.
Qed.

Lemma Zsum_indicator (p s n : nat) :
  np.Zsum ((λ c, if decide (p = c) then 1%Z else 0%Z) <$> seq s n)
  = if decide (s ≤ p < s + n) then 1%Z else 0%Z.
Proof.
  revert s. induction n as [|n IH]; intros s; simpl.
  - case_decide; [lia|done].
  - change (foldr Z.add 0%Z ?l) with (np.Zsum l). rewrite IH.
    repeat case_decide; lia.
Qed.

(** X19.  For an index tensor whose entries lie in [-depth, depth),
    [one_hot] returns a new array of shape [indices.shape + [depth]]; its
    element at [(J, c)] is 1 when the index at [J], counted from the end
    when negative, is [c], and 0 otherwise.  [device] and [out] play no
    part. *)
Theorem one_hot_marks_the_index
    (indices : ndarray) (depth : nat) (device : string) (out : option loc) (h : heap) :
  wf indices →
  Forall (λ z, (- Z.of_nat depth ≤ z < Z.of_nat depth)%Z) (data indices) →
  ∃ r,
    one_hot indices depth device out h = (h ++ [r], Return (length h)) ∧
    shape r = shape indices ++ [depth] ∧
    ∀ J c i, valid_index (shape indices) J → c < depth →
      np.normalize_index depth (nd_get indices J) = Some i →
      nd_get r (J ++ [c]) = if decide (i = c) then 1%Z else 0%Z.
Proof.
  intros Hwf Hrange.
  destruct (mapM_normalize_index_total _ _ Hrange) as [pos Hpos].
  eexists. split; [by apply one_hot_run|]. split; [done|].
  intros J c i HJ Hc Hi.
  pose proof (length_mapM _ _ _ Hpos) as Hlen.
  pose proof (ravel_lt _ _ HJ) as Hlt.
  pose proof (valid_index_length _ _ HJ) as HJlen.
  unfold nd_get at 1. cbn [shape data].
  rewrite ravel_app by done.
  replace (numel [depth]) with depth by (simpl; lia).
  replace (ravel [depth] [c]) with c by (simpl; lia).
  set (j := ravel (shape indices) J) in *.
  apply list_lookup_total_correct.
  rewrite list_lookup_fmap, lookup_seq_lt by (rewrite <-Hlen, Hwf; nia).
  simpl. f_equal.
  rewrite Nat.div_add_l, Nat.div_small, Nat.add_0_r by lia.
  rewrite Nat.add_comm, Nat.Div0.mod_add, Nat.mod_small by lia.
  destruct (lookup_lt_is_Some_2 (data indices) j ltac:(rewrite Hwf; lia)) as [z Hz].
  destruct (lookup_lt_is_Some_2 pos j ltac:(rewrite <-Hlen, Hwf; lia)) as [p Hp].
  apply mapM_Some in Hpos.
  pose proof (Forall2_lookup_lr _ _ _ _ _ _ Hpos Hz Hp) as Hn. simpl in Hn.
  unfold nd_get in Hi. fold j in Hi.
  rewrite (list_lookup_total_correct _ _ _ Hz), Hn in Hi. injection Hi as <-.
  by rewrite (list_lookup_total_correct _ _ _ Hp).
Qed.

Lemma one_hot_marks_the_index_witness :
  ∃ r,
    one_hot (vector [0; -1]%Z) 3 "cpu" None [] = ([r], Return 0) ∧
    shape r = [2; 3] ∧
    nd_get r [0; 0] = 1%Z ∧
    nd_get r [1; 0] = 0%Z ∧
    nd_get r [1; 2] = 1%Z.
Proof.
  destruct (one_hot_marks_the_index (vector [0; -1]%Z) 3 "cpu" None [])
    as (r & Hrun & Hshape & Hget).
  - reflexivity.
  - repeat constructor; lia.
  - exists r. split; [exact Hrun|]. split; [exact Hshape|]. split; [|split].
    + apply (Hget [0] 0 0); [repeat constructor|lia|reflexivity].
    + apply (Hget [1] 0 2); [repeat constructor|lia|reflexivity].
    + apply (Hget [1] 2 2); [repeat constructor|lia|reflexivity].
Defined.

(** X20.  Every row of the result of [one_hot] holds exactly one 1:
    the [depth] entries of a row add up to 1. *)
Theorem one_hot_rows_sum_to_one
    (indices : ndarray) (depth : nat) (device : string) (out : option loc) (h : heap) :
  wf indices →
  Forall (λ z, (- Z.of_nat depth ≤ z < Z.of_nat depth)%Z) (data indices) →
  ∃ r,
    one_hot indices depth device out h = (h ++ [r], Return (length h)) ∧
    ∀ j, j < numel (shape indices) →
      np.Zsum (take depth (drop (j * depth) (data r))) = 1%Z.
Proof.
  intros Hwf Hrange.
  destruct (mapM_normalize_index_total _ _ Hrange) as [pos Hpos].
  eexists. split; [by apply one_hot_run|].
  intros j Hj. cbn [data].
  pose proof (length_mapM _ _ _ Hpos) as Hlen.
  rewrite <-fmap_drop, <-fmap_take, drop_seq, take_seq.
  replace (depth `min` (length pos * depth - j * depth)) with depth
    by (rewrite <-Hlen, Hwf; nia).
  destruct (lookup_lt_is_Some_2 pos j ltac:(rewrite <-Hlen, Hwf; lia)) as [p Hp].
  pose proof (Forall_lookup_1 _ _ _ _ (mapM_normalize_index_lt _ _ _ Hpos) Hp) as Hpd.
  simpl in Hpd.
  transitivity (np.Zsum ((λ c, if decide (p = c) then 1%Z else 0%Z) <$> seq 0 depth));
    [|rewrite Zsum_indicator; apply decide_True; lia].
  f_equal.
  replace (0 + j * depth) with (j * depth + 0) by lia.
  rewrite <-(fmap_add_seq (j * depth) 0 depth), <-list_fmap_compose.
  apply list_fmap_ext. intros i c Hc. apply lookup_seq in Hc as [-> Hc]. simpl.
  rewrite Nat.div_add_l, Nat.div_small, Nat.add_0_r by lia.
  rewrite Nat.add_comm, Nat.Div0.mod_add, Nat.mod_small by lia.
  by rewrite (list_lookup_total_correct _ _ _ Hp).
Qed.

Lemma one_hot_rows_sum_to_one_witness :
  ∃ r,
    one_hot (NDArray [2; 1] [2; 0]%Z) 3 "cpu" None [] = ([r], Return 0) ∧
    np.Zsum (take 3 (drop 3 (data r))) = 1%Z.
Proof.
  destruct (one_hot_rows_sum_to_one (NDArray [2; 1] [2; 0]%Z) 3 "cpu" None [])
    as (r & Hrun & Hsum).
  - reflexivity.
  - repeat constructor; lia.
  - exists r. split; [exact Hrun|]. apply (Hsum 1). simpl. lia.
Defined.

Lemma normalize_index_None dim z :
  ¬ (- Z.of_nat dim ≤ z < Z.of_nat dim)%Z → np.normalize_index dim z = None.
Proof. intros Hz. unfold np.normalize_index. repeat case_decide; try done; lia. Qed.

(** X21.  An index outside [-depth, depth) makes [one_hot] raise
    [IndexError]; nothing is allocated or written. *)
Theorem one_hot_index_out_of_range_raises
    (indices : ndarray) (depth : nat) (device : string) (out : option loc) (h : heap) (z : Z) :
  z ∈ data indices →
  ¬ (- Z.of_nat depth ≤ z < Z.of_nat depth)%Z →
  one_hot indices depth device out h = (h, Raise IndexError).
Proof.
  intros Hin Hz. unfold one_hot.
  assert (np.getitem (np.eye depth) (np.index_array (np.ravel_array indices))
          = Raise IndexError) as ->; [|done].
  unfold np.getitem.
  change (np.ravel_array indices) with (vector (data indices)).
  change (shape (np.eye depth)) with [depth; depth].
  rewrite decide_True by (simpl; lia).
  rewrite fancy_positions_leading_None; [done|].
  apply mapM_None_2, Exists_exists. exists z. split; [done|].
  by apply normalize_index_None.
Qed.

Lemma one_hot_index_out_of_range_raises_witness :
  one_hot (vector [0; 3]%Z) 3 "cpu" None [] = ([], Raise IndexError).
Proof.
  apply (one_hot_index_out_of_range_raises (vector [0; 3]%Z) 3 "cpu" None [] 3).
  - apply (list_elem_of_lookup_2 _ 1). reflexivity.
  - lia.
Defined.

(** ** [indices_where] *)

Lemma coords_data_tabulate r (rows : list (list nat)) :
  0 < r → Forall (λ row, length row = r) rows →
  coords_data rows
  = (λ q, Z.of_nat ((rows !!! (q / r)) !!! (q mod r))) <$> seq 0 (length rows * r).
Proof.
  intros Hr Hrows.
  apply (list_eq_same_length _ _ (length rows * r)).
  - by rewrite length_fmap, length_seq.
  - by apply index_data_length.
  - intros q y z Hq Hy Hz.
    rewrite list_lookup_fmap, lookup_seq_lt in Hz by done. simpl in Hz. injection Hz as <-.
    assert (q / r < length rows) as Hj by (apply Nat.Div0.div_lt_upper_bound; lia).
    destruct (lookup_lt_is_Some_2 rows (q / r) Hj) as [row Hrow].
    pose proof (Forall_lookup_1 _ _ _ _ Hrows Hrow) as Hlen. simpl in Hlen.
    pose proof (Nat.mod_upper_bound q r ltac:(lia)) as Hmod.
    destruct (lookup_lt_is_Some_2 row (q mod r) ltac:(lia)) as [c Hc].
    rewrite (list_lookup_total_correct _ _ _ Hrow), (list_lookup_total_correct _ _ _ Hc).
    pose proof (index_data_row r rows Hrows _ _ Hrow) as Hblock.
    assert (take r (drop (q / r * r) (coords_data rows)) !! (q mod r) = Some (Z.of_nat c))
      as Hq' by (by rewrite Hblock, list_lookup_fmap, Hc).
    rewrite lookup_take_lt, lookup_drop in Hq' by done.
    replace (q / r * r + q mod r) with q in Hq'; [congruence|].
    rewrite (Nat.div_mod_eq q r) at 1. lia.
Qed.

Lemma concat_pick_units arrs J c :
  Forall (λ a, last (shape a) = Some 1) arrs →
  c < length arrs →
  np.concat_pick arrs J c = nd_get (arrs !!! c) (J ++ [0]).
Proof.
  intros Hall. revert c. induction Hall as [|a arrs Ha _ IH]; intros c Hc; simpl in Hc; [lia|].
  cbn [np.concat_pick]. rewrite Ha. simpl default. case_decide as Hc0.
  - assert (c = 0) as -> by lia. done.
  - destruct c as [|c]; [lia|]. simpl. rewrite Nat.sub_0_r. apply IH. lia.
Qed.

(** Columns laid side by side make the matrix whose rows read across them. *)
Lemma concatenate_all_columns n (cols : list (list Z)) :
  cols ≠ [] →
  np.concatenate_all ((λ c, NDArray [n; 1] c) <$> cols)
  = Return (NDArray [n; length cols]
              ((λ q, (cols !!! (q mod length cols)) !!! (q / length cols))
                 <$> seq 0 (n * length cols))).
Proof.
  intros Hne. destruct cols as [|c0 cols'] eqn:Ecols; [done|]. rewrite <-Ecols.
  assert (0 < length cols) as Hpos by (rewrite Ecols; simpl; lia).
  assert (Forall (λ a, last (shape a) = Some 1) ((λ c, NDArray [n; 1] c) <$> cols)) as Hunits.
  { apply Forall_fmap, Forall_true. intros c. done. }
  unfold np.concatenate_all. rewrite Ecols at 1 2. rewrite fmap_cons. cbn [shape].
  change (removelast [n; 1]) with [n]. rewrite <-Ecols.
  rewrite bool_decide_eq_true_2.
  2:{ apply Forall_fmap, Forall_true. intros c. by simpl. }
  f_equal.
  assert (sum_list ((λ b, default 0 (last (shape b))) <$> ((λ c, NDArray [n; 1] c) <$> cols))
          = length cols) as ->.
  { rewrite <-list_fmap_compose.
    rewrite (sum_list_fmap_same 1); [lia|]. apply Forall_true. intros c. done. }
  change ([n] ++ [length cols]) with [n; length cols].
  unfold tabulate. f_equal.
  replace (numel [n; length cols]) with (n * length cols) by (simpl; lia).
  apply list_fmap_ext. intros q q' Hq. apply lookup_seq in Hq as [-> Hq].
  rewrite !Nat.add_0_l. rewrite unravel_2d.
  pose proof (Nat.mod_upper_bound q (length cols) ltac:(lia)) as Hmod.
  change (take (length [n]) [q / length cols; q mod length cols]) with [q / length cols].
  change ([q / length cols; q mod length cols] !!! length [n]) with (q mod length cols).
  rewrite concat_pick_units by (done || (rewrite length_fmap; lia)).
  rewrite (list_lookup_total_fmap (λ c, NDArray [n; 1] c) cols) by lia.
  unfold nd_get. cbn [shape data]. f_equal. simpl. lia.
Qed.

Section indices_where.
Context (x : ndarray).
Hypothesis Hrank : shape x ≠ [].

Local Abbreviation sh := (shape x).
Local Abbreviation nz := (nonzero_offsets x).
Local Abbreviation rows := (unravel sh <$> nz).
Local Abbreviation col c := (NDArray [length nz] ((λ p, Z.of_nat (unravel sh p !!! c)) <$> nz)).

Lemma nonzero_run : np.nonzero x = (λ c, col c) <$> seq 0 (length sh).
Proof using All. unfold np.nonzero. by rewrite decide_False. Qed.

Lemma rows_rank : Forall (λ row, length row = length sh) rows.
Proof using Type. apply Forall_fmap, Forall_true. intros p. simpl. apply unravel_length. Qed.

Lemma indices_where_result :
  ∃ r, shape r = [length nz; length sh] ∧ data r = coords_data rows ∧
    (length sh = 1 → ∀ out h, indices_where x out h = (h ++ [r], Return (length h))) ∧
    (length sh ≠ 1 →
       np.concatenate_all (np.expand_dims_last <$> np.nonzero x) = Return r).
Proof using All.
  assert (0 < length sh) as Hpos by (destruct (shape x); [done|simpl; lia]).
  exists (NDArray [length nz; length sh] (coords_data rows)).
  split; [done|]. split; [done|]. split.
  - intros Hone out h. unfold indices_where. rewrite nonzero_run.
    rewrite decide_True by (by rewrite length_fmap, length_seq).
    rewrite Hone. cbn [seq fmap list_fmap lookup list_lookup or_raise].
    rewrite bind_lift_Return. unfold alloc, np.expand_dims_last. cbn [shape data app].
    do 4 f_equal.
    rewrite (coords_data_tabulate 1) by (try lia; rewrite <-Hone; apply rows_rank).
    rewrite length_fmap, Nat.mul_1_r.
    apply (list_eq_same_length _ _ (length nz));
      [by rewrite length_fmap, length_seq|by rewrite length_fmap|].
    intros j y z Hj Hy Hz.
    rewrite list_lookup_fmap in Hy. rewrite list_lookup_fmap, lookup_seq_lt in Hz by done.
    destruct (nz !! j) as [p|] eqn:Ep; [|done].
    cbn [fmap option_fmap option_map] in Hy, Hz.
    injection Hy as <-. injection Hz as <-.
    change (Nat.divmod j 0 0 0).1 with (j / 1).
    change (0 - (Nat.divmod j 0 0 0).2) with (j mod 1).
    rewrite Nat.div_1_r, Nat.mod_1_r.
    by rewrite (list_lookup_total_correct _ _ _ (proj2 (list_lookup_fmap_Some _ _ _ _)
                  (ex_intro _ p (conj eq_refl Ep)))).
  - intros Hmany. rewrite nonzero_run, <-list_fmap_compose.
    change (np.expand_dims_last ∘ (λ c, col c))
      with ((λ c, NDArray [length nz; 1] c) ∘ (λ c, (λ p, Z.of_nat (unravel sh p !!! c)) <$> nz)).
    rewrite list_fmap_compose.
    rewrite concatenate_all_columns by (destruct (shape x); [done|simpl; discriminate]).
    rewrite length_fmap, length_seq. do 2 f_equal.
    rewrite (coords_data_tabulate (length sh)) by (try lia; apply rows_rank).
    rewrite length_fmap.
    apply list_fmap_ext. intros q q' Hq. apply lookup_seq in Hq as [-> Hq].
    rewrite !Nat.add_0_l.
    assert (q / length sh < length nz) as Hj by (apply Nat.Div0.div_lt_upper_bound; lia).
    pose proof (Nat.mod_upper_bound q (length sh) ltac:(lia)) as Hmod.
    destruct (lookup_lt_is_Some_2 nz _ Hj) as [p Hp].
    rewrite (list_lookup_total_correct _ (q mod length sh)
               ((λ p, Z.of_nat (unravel sh p !!! (q mod length sh))) <$> nz))
      by (by rewrite list_lookup_fmap, lookup_seq_lt).
    rewrite (list_lookup_total_correct _ (q / length sh)
               (Z.of_nat (unravel sh p !!! (q mod length sh))))
      by (by rewrite list_lookup_fmap, Hp).
    by rewrite (list_lookup_total_correct rows _ (unravel sh p))
      by (by rewrite list_lookup_fmap, Hp).
Qed.

End indices_where.

Lemma nonzero_length x : shape x ≠ [] → length (np.nonzero x) = length (shape x).
Proof. intros Hrank. by rewrite nonzero_run, length_fmap, length_seq. Qed.

Lemma indices_where_many x out r h :
  shape x ≠ [] → length (shape x) ≠ 1 →
  np.concatenate_all (np.expand_dims_last <$> np.nonzero x) = Return r →
  indices_where x out h
  = match out with
    | None => (h ++ [r], Return (length h))
    | Some o =>
        match h !! o with
        | None => (h, Raise TypeError)
        | Some a => if decide (shape a = shape r) then (<[o := r]> h, Return o)
                    else (h, Raise ValueError)
        end
    end.
Proof.
  intros Hrank Hmany Hr. unfold indices_where.
  rewrite decide_False by (by rewrite nonzero_length).
  unfold np.concatenate_out. rewrite Hr, bind_lift_Return.
  destruct out as [o|]; [|done].
  unfold bind at 1, load. destruct (h !! o) as [a|]; [|done].
  case_decide; done.
Qed.

Lemma indices_where_fresh x h :
  shape x ≠ [] →
  ∃ r,
    indices_where x None h = (h ++ [r], Return (length h)) ∧
    shape r = [length (nonzero_offsets x); length (shape x)] ∧
    data r = coords_data (unravel (shape x) <$> nonzero_offsets x).
Proof.
  intros Hrank. destruct (indices_where_result x Hrank) as (r & Hshape & Hdata & Hone & Hmany).
  exists r. split; [|done].
  destruct (decide (length (shape x) = 1)) as [H1|H1]; [by apply Hone|].
  by rewrite (indices_where_many x None r h Hrank H1 (Hmany H1)).
Qed.

(** X22.  For an array of rank at least 1, [indices_where] returns
    a new array with one row per non-zero element, in row-major order of
    the elements, and one column per axis: row [j] holds the coordinates of
    the [j]-th non-zero element. *)
Theorem indices_where_lists_the_nonzero_coordinates (x : ndarray) (h : heap) :
  shape x ≠ [] →
  ∃ r,
    indices_where x None h = (h ++ [r], Return (length h)) ∧
    shape r = [length (nonzero_offsets x); length (shape x)] ∧
    ∀ j p, nonzero_offsets x !! j = Some p →
      data x !!! p ≠ 0%Z ∧
      take (length (shape x)) (drop (j * length (shape x)) (data r))
      = Z.of_nat <$> unravel (shape x) p.
Proof.
  intros Hrank. destruct (indices_where_fresh x h Hrank) as (r & Hrun & Hshape & Hdata).
  exists r. split; [done|]. split; [done|]. intros j p Hj. split.
  - apply list_elem_of_lookup_2 in Hj.
    unfold nonzero_offsets in Hj. by apply list_elem_of_filter in Hj as [? _].
  - rewrite Hdata. apply index_data_row.
    + apply Forall_fmap, Forall_true. intros q. simpl. apply unravel_length.
    + by rewrite list_lookup_fmap, Hj.
Qed.

Lemma indices_where_lists_the_nonzero_coordinates_witness :
  ∃ r,
    indices_where (NDArray [2; 2] [0; 5; 7; 0]%Z) None [] = ([r], Return 0) ∧
    shape r = [2; 2] ∧
    take 2 (data r) = [0; 1]%Z ∧
    take 2 (drop 2 (data r)) = [1; 0]%Z.
Proof.
  destruct (indices_where_lists_the_nonzero_coordinates (NDArray [2; 2] [0; 5; 7; 0]%Z) [])
    as (r & Hrun & Hshape & Hrows).
  - discriminate.
  - exists r. split; [exact Hrun|]. split; [exact Hshape|]. split.
    + exact (proj2 (Hrows 0 1 eq_refl)).
    + exact (proj2 (Hrows 1 2 eq_refl)).
Defined.

(** X23.  [indices_where] uses [out] only for arrays of rank 2 or more:
    there the result is written into an [out] of the result's shape, which
    is returned, and an [out] of another shape raises [ValueError] and is
    left as it was.  For a one-dimensional array [out] is ignored and a
    new array is returned. *)
Theorem indices_where_uses_out_beyond_one_dimension
    (x : ndarray) (o : loc) (a : ndarray) (h : heap) :
  shape x ≠ [] →
  h !! o = Some a →
  ∃ r,
    shape r = [length (nonzero_offsets x); length (shape x)] ∧
    data r = coords_data (unravel (shape x) <$> nonzero_offsets x) ∧
    (length (shape x) = 1 →
       indices_where x (Some o) h = (h ++ [r], Return (length h))) ∧
    (length (shape x) ≠ 1 → shape a = shape r →
       indices_where x (Some o) h = (<[o := r]> h, Return o)) ∧
    (length (shape x) ≠ 1 → shape a ≠ shape r →
       indices_where x (Some o) h = (h, Raise ValueError)).
Proof.
  intros Hrank Ho.
  destruct (indices_where_result x Hrank) as (r & Hshape & Hdata & Hone & Hmany).
  exists r. split; [done|]. split; [done|]. split; [|split].
  - intros H1. by apply Hone.
  - intros H1 Ha. rewrite (indices_where_many x (Some o) r h Hrank H1 (Hmany H1)), Ho.
    by rewrite decide_True.
  - intros H1 Ha. rewrite (indices_where_many x (Some o) r h Hrank H1 (Hmany H1)), Ho.
    by rewrite decide_False.
Qed.

Lemma indices_where_uses_out_beyond_one_dimension_witness :
  let h := [np.zeros [2; 2]] in
  indices_where (vector [0; 5]%Z) (Some 0) h = (h ++ [NDArray [1; 1] [1%Z]], Return 1) ∧
  indices_where (NDArray [2; 2] [0; 5; 7; 0]%Z) (Some 0) h
    = ([NDArray [2; 2] [0; 1; 1; 0]%Z], Return 0).
Proof.
  intros h. split.
  - destruct (indices_where_uses_out_beyond_one_dimension (vector [0; 5]%Z) 0 (np.zeros [2; 2]) h)
      as (r & Hshape & Hdata & Hone & _); [discriminate|reflexivity|].
    destruct r as [sr dr]. simpl in Hshape, Hdata. subst sr dr. exact (Hone eq_refl).
  - destruct (indices_where_uses_out_beyond_one_dimension
                (NDArray [2; 2] [0; 5; 7; 0]%Z) 0 (np.zeros [2; 2]) h)
      as (r & Hshape & Hdata & _ & Hmany & _); [discriminate|reflexivity|].
    destruct r as [sr dr]. simpl in Hshape, Hdata. subst sr dr.
    apply Hmany; [simpl; lia|reflexivity].
Defined.

(** ** Sparse form: [indices_where], [gather_nd] and [scatter_nd] *)

Lemma nonzero_offsets_elem x p :
  p ∈ nonzero_offsets x ↔ data x !!! p ≠ 0%Z ∧ p < numel (shape x).
Proof.
  unfold nonzero_offsets. rewrite list_elem_of_filter, elem_of_seq.
  split; intros [? ?]; split; (done || lia).
Qed.

Lemma filter_lookup_gen (l : list Z) (s : nat) (get : nat → Z) :
  (∀ i v, l !! i = Some v → get (s + i) = v) →
  get <$> filter (λ p, get p ≠ 0%Z) (seq s (length l)) = filter (λ v, v ≠ 0%Z) l.
Proof.
  revert s. induction l as [|a l IH]; intros s Hget; [done|].
  cbn [length seq]. rewrite !filter_cons.
  assert (get s = a) as Ha by (rewrite <-(Nat.add_0_r s); by apply Hget).
  rewrite Ha.
  assert (get <$> filter (λ p, get p ≠ 0%Z) (seq (S s) (length l))
          = filter (λ v, v ≠ 0%Z) l) as Hrest.
  { apply IH. intros i v Hi. replace (S s + i) with (s + S i) by lia. by apply Hget. }
  case_decide; [rewrite fmap_cons, Ha|]; by rewrite Hrest.
Qed.

(** Reading an array at the offsets of its non-zero elements gives its
    non-zero elements. *)
Lemma nonzero_values x :
  wf x → (data x !!!.) <$> nonzero_offsets x = filter (λ v, v ≠ 0%Z) (data x).
Proof.
  intros Hwf. unfold nonzero_offsets. rewrite <-Hwf.
  apply (filter_lookup_gen (data x) 0 (λ i, data x !!! i)). intros i v Hi.
  by apply list_lookup_total_correct.
Qed.

Section sparse.
Context (x : ndarray).
Hypothesis Hrank : shape x ≠ [].
Hypothesis Hwf : wf x.

Local Abbreviation sh := (shape x).
Local Abbreviation k := (length (shape x)).
Local Abbreviation nz := (nonzero_offsets x).
Local Abbreviation n := (length (nonzero_offsets x)).
Local Abbreviation rows := (unravel (shape x) <$> nonzero_offsets x).

Lemma sparse_rank : 0 < k ≤ length sh.
Proof using Hrank. destruct (shape x); [done|simpl; lia]. Qed.

Lemma sparse_rows_valid : Forall (valid_index (take k sh)) rows.
Proof using Type.
  rewrite firstn_all. apply Forall_fmap, Forall_forall. intros p Hp. simpl.
  apply unravel_valid. by apply nonzero_offsets_elem in Hp as [_ ?].
Qed.

Lemma sparse_addressed : addressed sh k rows = nz.
Proof using Hrank.
  pose proof sparse_rank as Hk. pose proof sparse_rows_valid as Hvalid.
  assert (numel (drop k sh) = 1) as Hblock by (by rewrite drop_all).
  apply (list_eq_same_length _ _ n); [done| |].
  - by rewrite (addressed_length sh k rows Hk Hvalid), Hblock, length_fmap, Nat.mul_1_r.
  - intros j p q Hj Hp Hq.
    assert (rows !! j = Some (unravel sh q)) as Hrow by (by rewrite list_lookup_fmap, Hq).
    pose proof (addressed_lookup sh k rows Hk Hvalid j _ 0 Hrow ltac:(lia)) as Ha.
    rewrite Hblock, Nat.mul_1_r, !Nat.add_0_r in Ha.
    rewrite Ha in Hp. injection Hp as <-.
    apply ravel_unravel. apply (nonzero_offsets_elem x q).
    by eapply list_elem_of_lookup_2.
Qed.

Lemma sparse_gathered : gathered x k n rows = (data x !!!.) <$> nz.
Proof using Hrank.
  unfold gathered, gather_block. rewrite drop_all. change (numel []) with 1.
  rewrite Nat.mul_1_r.
  apply (list_eq_same_length _ _ n); [by rewrite length_fmap|by rewrite length_fmap, length_seq|].
  intros j u v Hj Hu Hv.
  rewrite list_lookup_fmap, lookup_seq_lt in Hu by done. simpl in Hu. injection Hu as <-.
  rewrite list_lookup_fmap in Hv.
  destruct (nz !! j) as [q|] eqn:Eq; [|done]. simpl in Hv. injection Hv as <-.
  change (Nat.divmod j 0 0 0).1 with (j / 1).
  change (0 - (Nat.divmod j 0 0 0).2) with (j mod 1).
  rewrite Nat.div_1_r, Nat.mod_1_r, Nat.add_0_r.
  rewrite (list_lookup_total_correct rows j (unravel sh q)) by (by rewrite list_lookup_fmap, Eq).
  rewrite ravel_unravel; [done|]. apply (nonzero_offsets_elem x q).
  by eapply list_elem_of_lookup_2.
Qed.

Hypothesis Hsmall : (Z.of_nat (numel (shape x)) < 2 ^ 31)%Z.

Lemma sparse_gather ix out h :
  shape ix = [n; k] → data ix = coords_data rows →
  gather_nd x ix out h
  = (h ++ [vector (filter (λ v, v ≠ 0%Z) (data x))], Return (length h)).
Proof using All.
  intros Hshape Hdata.
  rewrite (gather_nd_run x ix k n rows); try done.
  - unfold index_batch. rewrite Hshape, drop_all, sparse_gathered, nonzero_values by done.
    cbn [removelast app]. unfold vector. do 3 f_equal.
    by rewrite <-nonzero_values, length_fmap.
  - by rewrite Hshape.
  - apply sparse_rank.
  - rewrite Hshape. simpl. lia.
  - by rewrite length_fmap.
  - apply sparse_rows_valid.
Qed.

Lemma sparse_scatter ix h :
  shape ix = [n; k] → data ix = coords_data rows →
  scatter_nd ix (vector (filter (λ v, v ≠ 0%Z) (data x))) (Some sh) "replace" None h
  = (h ++ [np.zeros sh; x], Return (S (length h))).
Proof using All.
  intros Hshape Hdata.
  pose proof sparse_rank as Hk. pose proof sparse_rows_valid as Hvalid.
  set (g := vector (filter (λ v, v ≠ 0%Z) (data x))).
  assert (length (data g) = n) as Hg.
  { unfold g. cbn [data vector]. by rewrite <-nonzero_values, length_fmap. }
  assert (length (data ix) = n * k) as Hilen.
  { rewrite Hdata, (index_data_length k); [by rewrite length_fmap|].
    apply (rows_have_length sh k rows Hk Hvalid). }
  rewrite (scatter_nd_replace_fresh ix g sh k n nz g); try done; try lia.
  - do 4 f_equal. transitivity (NDArray sh (data x)); [f_equal|by destruct x].
    apply (list_eq_same_length _ _ (numel sh)).
    + done.
    + by rewrite scatter_with_length, length_replicate.
    + intros q u v Hq Hu Hv.
      rewrite scatter_with_lookup, lookup_replicate_2 in Hu by done.
      cbn [fmap option_fmap option_map] in Hu. injection Hu as <-.
      unfold g. cbn [data vector]. rewrite <-nonzero_values by done.
      destruct (decide (q ∈ nz)) as [Hin|Hout].
      * rewrite (foldl_replace_last _ (data x !!! q)).
        -- by apply list_lookup_total_correct.
        -- apply hits_elem; [by rewrite length_fmap|done].
        -- apply (hits_fmap_self (λ p, data x !!! p)).
      * rewrite hits_not_elem by done. simpl.
        destruct (decide (v = 0%Z)) as [->|Hv0]; [done|]. exfalso. apply Hout.
        apply nonzero_offsets_elem.
        by rewrite (list_lookup_total_correct _ _ _ Hv).
  - by rewrite Hshape.
  - transitivity (Some (addressed sh k rows)); [|by rewrite sparse_addressed].
    unfold addressed. apply fancy_positions_nd; [done|].
    pose proof (normalized_rows_coords sh k rows Hk Hvalid ix Hdata) as Hrows.
    rewrite length_fmap in Hrows. exact Hrows.
  - rewrite squeeze_leading_id by (cbn [g vector shape length]; lia).
    rewrite drop_all. apply broadcast_to_id'; [apply wf_vector|].
    unfold g. cbn [vector shape app]. by rewrite <-Hg.
Qed.

End sparse.

(** X24.  For an array [x] of rank at least 1 with fewer than 2^31
    elements, [gather_nd] of [x] at [indices_where(x)] returns the non-zero
    elements of [x], in row-major order. *)
Theorem gather_nd_at_indices_where_collects_the_nonzeros (x : ndarray) (h : heap) :
  wf x →
  shape x ≠ [] →
  (Z.of_nat (numel (shape x)) < 2 ^ 31)%Z →
  ∃ ix,
    indices_where x None h = (h ++ [ix], Return (length h)) ∧
    gather_nd x ix None (h ++ [ix])
      = (h ++ [ix; vector (filter (λ v, v ≠ 0%Z) (data x))], Return (S (length h))).
Proof.
  intros Hwf Hrank Hsmall.
  destruct (indices_where_fresh x h Hrank) as (ix & Hrun & Hshape & Hdata).
  exists ix. split; [done|].
  rewrite (sparse_gather x Hrank Hwf Hsmall ix None (h ++ [ix]) Hshape Hdata).
  by rewrite length_app, Nat.add_comm, <-(assoc_L (++)).
Qed.

Lemma gather_nd_at_indices_where_collects_the_nonzeros_witness :
  ∃ ix,
    indices_where (NDArray [2; 2] [0; 5; 7; 0]%Z) None [] = ([ix], Return 0) ∧
    gather_nd (NDArray [2; 2] [0; 5; 7; 0]%Z) ix None [ix] = ([ix; vector [5; 7]%Z], Return 1).
Proof.
  destruct (gather_nd_at_indices_where_collects_the_nonzeros (NDArray [2; 2] [0; 5; 7; 0]%Z) [])
    as (ix & Hrun & Hgather).
  - reflexivity.
  - discriminate.
  - simpl. lia.
  - exists ix. split; [exact Hrun|exact Hgather].
Defined.

(** X25.  An array of rank at least 1 with fewer than 2^31
    elements is rebuilt from its sparse form: [scatter_nd] with reduction
    "replace" and the shape of [x], given the coordinates [indices_where(x)]
    and the values [gather_nd(x, indices_where(x))], returns an array
    equal to [x]. *)
Theorem scatter_nd_rebuilds_from_the_nonzeros (x : ndarray) (h : heap) :
  wf x →
  shape x ≠ [] →
  (Z.of_nat (numel (shape x)) < 2 ^ 31)%Z →
  ∃ ix g z,
    indices_where x None h = (h ++ [ix], Return (length h)) ∧
    gather_nd x ix None (h ++ [ix]) = (h ++ [ix; g], Return (S (length h))) ∧
    scatter_nd ix g (Some (shape x)) "replace" None (h ++ [ix; g])
      = (h ++ [ix; g; z; x], Return (S (S (S (length h))))).
Proof.
  intros Hwf Hrank Hsmall.
  destruct (indices_where_fresh x h Hrank) as (ix & Hrun & Hshape & Hdata).
  exists ix, (vector (filter (λ v, v ≠ 0%Z) (data x))), (np.zeros (shape x)).
  split; [done|]. split.
  - rewrite (sparse_gather x Hrank Hwf Hsmall ix None (h ++ [ix]) Hshape Hdata).
    by rewrite length_app, Nat.add_comm, <-(assoc_L (++)).
  - rewrite (sparse_scatter x Hrank Hwf Hsmall ix _ Hshape Hdata).
    rewrite length_app, <-(assoc_L (++)). simpl. do 2 f_equal. lia.
Qed.

Lemma scatter_nd_rebuilds_from_the_nonzeros_witness :
  let x := NDArray [2; 2] [0; 5; 7; 0]%Z in
  ∃ ix g z,
    indices_where x None [] = ([ix], Return 0) ∧
    gather_nd x ix None [ix] = ([ix; g], Return 1) ∧
    scatter_nd ix g (Some [2; 2]) "replace" None [ix; g] = ([ix; g; z; x], Return 3).
Proof.
  intros x.
  destruct (scatter_nd_rebuilds_from_the_nonzeros x []) as (ix & g & z & Hrun & Hg & Hs).
  - reflexivity.
  - discriminate.
  - simpl. lia.
  - exists ix, g, z. split; [exact Hrun|]. split; [exact Hg|exact Hs].
Defined.
